(** * Tracker scrape scripts: URL derivation, info-hash encoding,
      statistics extraction, and the bencode codec of the specification.

    The two scripts [manual-scrape.py] and [manual-scrape-better.py] are
    embedded as pure functions.  Python [str] values are lists of
    characters, [bytes] values are lists of bytes.  The blocking HTTP request
    and the third-party bencode decoder are parameters of the embedded
    functions; what the scripts print is kept as a list of messages next to
    the returned value. *)

From Stdlib Require Import List Bool NArith ZArith Lia.
From Stdlib.Strings Require Import Ascii String Byte.
Import ListNotations.

Local Open Scope list_scope.
Set Warnings "-register-all".

(* ================================================================= *)
(** * Python values: [str] and [bytes] *)

Module Py.

Definition str := list ascii.
Definition bytes := list byte.

(** String and bytes literals. *)
Definition s (lit : string) : str := list_ascii_of_string lit.
Definition b (lit : string) : bytes := list_byte_of_string lit.

Definition ascii_eqb (x y : ascii) : bool := Ascii.eqb x y.
Definition byte_eqb (x y : byte) : bool := Byte.eqb x y.

(** [s.startswith(p)] on lists, for an arbitrary element equality. *)
Fixpoint startswith {A} (eqb : A -> A -> bool) (p l : list A) : bool :=
  match p, l with
  | [], _ => true
  | _ :: _, [] => false
  | x :: p', y :: l' => eqb x y && startswith eqb p' l'
  end.

(** [p in l] for [str] and [bytes]: [p] occurs as a contiguous run. *)
Fixpoint contains {A} (eqb : A -> A -> bool) (p l : list A) : bool :=
  startswith eqb p l ||
  match l with
  | [] => false
  | _ :: l' => contains eqb p l'
  end.

(** [l.replace(old, new)] for a non-empty [old]: occurrences are found from
    the left and do not overlap.  [skip] counts the characters of a matched
    occurrence that are still to be dropped. *)
Fixpoint replace_from {A} (eqb : A -> A -> bool) (old new : list A)
    (skip : nat) (l : list A) : list A :=
  match l with
  | [] => []
  | c :: l' =>
      match skip with
      | S k => replace_from eqb old new k l'
      | O =>
          if startswith eqb old l
          then new ++ replace_from eqb old new (List.length old - 1) l'
          else c :: replace_from eqb old new 0 l'
      end
  end.

Definition replace {A} (eqb : A -> A -> bool) (old new l : list A) : list A :=
  replace_from eqb old new 0 l.

(** [l.rstrip(chars)]: drop the longest suffix made of members of [chars]. *)
Fixpoint rstrip {A} (eqb : A -> A -> bool) (chars l : list A) : list A :=
  match l with
  | [] => []
  | c :: l' =>
      match rstrip eqb chars l' with
      | [] => if existsb (eqb c) chars then [] else [c]
      | r => c :: r
      end
  end.

Definition str_contains := @contains ascii ascii_eqb.
Definition str_replace := @replace ascii ascii_eqb.
Definition str_rstrip := @rstrip ascii ascii_eqb.
Definition bytes_contains := @contains byte byte_eqb.

(** A byte from its numeric value (values are reduced modulo 256). *)
Definition byte_of_N (n : N) : byte := byte_of_ascii (ascii_of_N n).

(** [chr(b)] for a byte. *)
Definition chr (x : byte) : ascii := ascii_of_byte x.

(** [s.encode('utf-8')] for a string whose code points are below 256. *)
Definition utf8_char (c : ascii) : bytes :=
  let n := N_of_ascii c in
  if (n <? 128)%N then [byte_of_ascii c]
  else [byte_of_N (192 + n / 64); byte_of_N (128 + n mod 64)].

Definition utf8_encode (t : str) : bytes := flat_map utf8_char t.

(** Value of a hexadecimal digit, either case. *)
Definition hexval (n : N) : option N :=
  if ((48 <=? n) && (n <=? 57))%N then Some (n - 48)%N
  else if ((97 <=? n) && (n <=? 102))%N then Some (n - 87)%N
  else if ((65 <=? n) && (n <=? 70))%N then Some (n - 55)%N
  else None.

Definition is_hex_char (c : ascii) : bool :=
  match hexval (N_of_ascii c) with Some _ => true | None => false end.

(** ASCII whitespace as [bytes.fromhex] skips it. *)
Definition is_ascii_space (c : ascii) : bool :=
  let n := N_of_ascii c in
  ((n =? 32) || ((9 <=? n) && (n <=? 13)))%N.

(** [bytes.fromhex(h)]: two hexadecimal digits per byte, whitespace between
    bytes ignored; [None] stands for the [ValueError] it raises. *)
Fixpoint bytes_fromhex (h : str) : option bytes :=
  match h with
  | [] => Some []
  | c :: r =>
      if is_ascii_space c then bytes_fromhex r
      else
        match r with
        | [] => None
        | d :: r' =>
            match hexval (N_of_ascii c), hexval (N_of_ascii d), bytes_fromhex r' with
            | Some hi, Some lo, Some rest => Some (byte_of_N (16 * hi + lo) :: rest)
            | _, _, _ => None
            end
        end
  end.

(** Digits of [int(x)] for a run of ASCII digits, most significant first. *)
Definition is_digit (x : byte) : bool :=
  ((48 <=? Byte.to_N x) && (Byte.to_N x <=? 57))%N.

Definition digit_value (x : byte) : N := (Byte.to_N x - 48)%N.

Definition int_of_digits (ds : bytes) : N :=
  fold_left (fun acc d => (10 * acc + digit_value d)%N) ds 0%N.

End Py.

(* ================================================================= *)
(** * [urllib.parse]: percent-encoding *)

Module Urllib.
Import Py.

(** [_ALWAYS_SAFE]: letters, digits and [_.-~]. *)
Definition always_safe (x : byte) : bool :=
  let n := Byte.to_N x in
  (((65 <=? n) && (n <=? 90)) || ((97 <=? n) && (n <=? 122)) ||
   ((48 <=? n) && (n <=? 57)) ||
   (n =? 95) || (n =? 46) || (n =? 45) || (n =? 126))%N.

Definition hex_upper (n : N) : ascii :=
  if (n <? 10)%N then ascii_of_N (48 + n) else ascii_of_N (55 + n).

(** The per-byte quoter: safe bytes as themselves, others as [%XX]. *)
Definition quoter (safe : bytes) (x : byte) : str :=
  if always_safe x || existsb (byte_eqb x) safe then [chr x]
  else ["%"%char; hex_upper (Byte.to_N x / 16); hex_upper (Byte.to_N x mod 16)].

(** [quote(bs, safe)] applied to a [bytes] argument. *)
Definition quote (bs : bytes) (safe : bytes) : str := flat_map (quoter safe) bs.

(** [quote_plus(bs, safe='')] applied to a [bytes] argument. *)
Definition quote_plus (bs : bytes) : str :=
  if negb (bytes_contains (b " ") bs) then quote bs []
  else str_replace (s " ") (s "+") (quote bs (b " ")).

(** [unquote_to_bytes]: every [%XX] with two hexadecimal digits becomes the
    byte it names; everything else is kept. *)
Fixpoint unquote_bytes (l : bytes) : bytes :=
  match l with
  | [] => []
  | c :: r =>
      match r with
      | h1 :: h2 :: r' =>
          if byte_eqb c "%"%byte then
            match hexval (Byte.to_N h1), hexval (Byte.to_N h2) with
            | Some hi, Some lo => byte_of_N (16 * hi + lo) :: unquote_bytes r'
            | _, _ => c :: unquote_bytes r
            end
          else c :: unquote_bytes r
      | _ => c :: unquote_bytes r
      end
  end.

Definition unquote_to_bytes (t : str) : bytes := unquote_bytes (utf8_encode t).

End Urllib.

(* ================================================================= *)
(** * [requests]: what the scripts hand to the HTTP client and get back *)

Module Requests.
Import Py.

(** A value of the [params] dictionary: the scripts pass a [str] or [bytes]. *)
Inductive param_value :=
| PStr (t : str)
| PBytes (x : bytes).

(** The client's parameter encoder: a [str] is encoded to UTF-8, and the
    bytes are passed through [quote_plus].  The client requotes the whole
    URL afterwards, which leaves a text made of unreserved characters, [+]
    and [%XX] escapes of other bytes as it is. *)
Definition encode_param_value (v : param_value) : str :=
  match v with
  | PStr t => Urllib.quote_plus (utf8_encode t)
  | PBytes x => Urllib.quote_plus x
  end.

(** Outcome of [requests.get]: a response, or one of the exceptions the
    scripts tell apart. *)
Inductive outcome :=
| Response (status_code : Z) (content : bytes)
| Timeout
| ConnectionError
| OtherError.

End Requests.

(* ================================================================= *)
(** * Scrape URL derivation (identical in both scripts) *)

Module ScrapeUrl.
Import Py.

Definition announce : str := s "/announce".
Definition scrape : str := s "/scrape".

(** Lines 22-25 of [manual-scrape-better.py], 24-28 of [manual-scrape.py]. *)
Definition scrape_url (tracker_url : str) : str :=
  if str_contains announce tracker_url
  then str_replace announce scrape tracker_url
  else str_rstrip (s "/") tracker_url ++ scrape.

(** The derivation in the words of the specification: only the last
    [/announce] path segment is replaced; without one, [/scrape] is
    appended.  A path segment ends at the next [/] or at the end. *)
Definition segment_here (l : str) : bool :=
  startswith ascii_eqb announce l &&
  match skipn (List.length announce) l with
  | [] => true
  | c :: _ => ascii_eqb c "/"%char
  end.

Fixpoint replace_last_segment (l : str) : option str :=
  match l with
  | [] => None
  | c :: l' =>
      match replace_last_segment l' with
      | Some r => Some (c :: r)
      | None =>
          if segment_here l then Some (scrape ++ skipn (List.length announce) l)
          else None
      end
  end.

Definition spec_scrape_url (tracker_url : str) : str :=
  match replace_last_segment tracker_url with
  | Some r => r
  | None => tracker_url ++ scrape
  end.

(** Every occurrence of [/announce], found from the left, is replaced. *)
Inductive AllReplaced : str -> str -> Prop :=
| AR_none t : str_contains announce t = false -> AllReplaced t t
| AR_next a t t' :
    str_contains announce a = false ->
    AllReplaced t t' ->
    AllReplaced (a ++ announce ++ t) (a ++ scrape ++ t').

End ScrapeUrl.

(* ================================================================= *)
(** * Bencode values *)

Module Bencode.
Import Py.

(** The value tree: what a decoder returns.  A dictionary is kept as the
    list of its entries. *)
Inductive value :=
| Integer (z : Z)
| ByteString (x : bytes)
| List (items : list value)
| Dictionary (entries : list (bytes * value)).

Fixpoint bytes_eqb (x y : bytes) : bool :=
  match x, y with
  | [], [] => true
  | c :: x', d :: y' => byte_eqb c d && bytes_eqb x' y'
  | _, _ => false
  end.

(** Byte-lexicographic order on keys. *)
Fixpoint bytes_ltb (x y : bytes) : bool :=
  match x, y with
  | _, [] => false
  | [], _ :: _ => true
  | c :: x', d :: y' =>
      match (Byte.to_N c ?= Byte.to_N d)%N with
      | Lt => true
      | Gt => false
      | Eq => bytes_ltb x' y'
      end
  end.

Fixpoint lookup {A} (k : bytes) (d : list (bytes * A)) : option A :=
  match d with
  | [] => None
  | (k', v) :: d' => if bytes_eqb k' k then Some v else lookup k d'
  end.

Definition has_key {A} (k : bytes) (d : list (bytes * A)) : bool :=
  existsb (fun kv => bytes_eqb (fst kv) k) d.

End Bencode.

(* ================================================================= *)
(** * [manual-scrape.py] *)

Module ManualScrape.
Import Py Requests.

(** Lines 15-18.  [None] is the [ValueError] of [bytes.fromhex]. *)
Definition hex_to_url_encoded (hex_hash : str) : option str :=
  match bytes_fromhex hex_hash with
  | Some bytes_hash => Some (Urllib.quote bytes_hash [])
  | None => None
  end.

(** The returned dictionary [{'seeders': .., 'leechers': .., 'downloads': ..}]. *)
Record stats := { seeders : Z; leechers : Z; downloads : Z }.

(** What the function prints. *)
Inductive message :=
| Scraping (url : str)
| ResponseLength (n : nat)
| RawResponse (first200 : bytes)
| Stats (st : stats)
| CouldNotParse
| HttpStatus (code : Z)
| Error.

(** A call either returns, having printed [out], or lets an exception
    escape. *)
Inductive run :=
| Returns (out : list message) (result : option stats)
| RaisesValueError.

(** [(\d+)e] at the head of [l]: the digits are taken greedily, giving one
    back at a time until an [e] follows.  The result is group 1. *)
Fixpoint digits_then_e (l : bytes) : option bytes :=
  match l with
  | [] => None
  | d :: r =>
      if is_digit d then
        match digits_then_e r with
        | Some ds => Some (d :: ds)
        | None => if startswith byte_eqb (b "e") r then Some [d] else None
        end
      else None
  end.

(** [re.match] of [<key>i(\d+)e] at the head of [l]. *)
Definition match_here (key l : bytes) : option bytes :=
  if startswith byte_eqb (key ++ b "i") l
  then digits_then_e (skipn (List.length (key ++ b "i")) l)
  else None.

(** [re.search(<key>i(\d+)e, content)]: group 1 of the leftmost match. *)
Fixpoint re_search (key content : bytes) : option bytes :=
  match match_here key content with
  | Some g => Some g
  | None =>
      match content with
      | [] => None
      | _ :: r => re_search key r
      end
  end.

Section Script.

(** [requests.get(url, params={'info_hash': v}, timeout=10)]. *)
Variable requests_get : str -> param_value -> outcome.

(** [sys.get_int_max_str_digits()]; 0 switches the limit off. *)
Variable int_max_str_digits : nat.

(** [int(group)] on a run of digits; [None] is the [ValueError] raised for a
    run longer than the limit. *)
Definition py_int (ds : bytes) : option Z :=
  if (0 <? int_max_str_digits)%nat && (int_max_str_digits <? List.length ds)%nat
  then None
  else Some (Z.of_N (int_of_digits ds)).

Definition int_or_zero (m : option bytes) : option Z :=
  match m with
  | Some g => py_int g
  | None => Some 0%Z
  end.

(** Lines 41-59: what is done with the body of a 200 response.  [None] is an
    exception, caught by the handler of line 62. *)
Definition parse_content (content : bytes) : list message * option (option stats) :=
  let out := [ResponseLength (List.length content); RawResponse (firstn 200 content)] in
  let complete_match := re_search (b "8:complete") content in
  let incomplete_match := re_search (b "10:incomplete") content in
  let downloaded_match := re_search (b "10:downloaded") content in
  match complete_match, incomplete_match with
  | None, None => (out ++ [CouldNotParse], Some None)
  | _, _ =>
      match int_or_zero complete_match with
      | None => (out, None)
      | Some n_seeders =>
          match int_or_zero incomplete_match with
          | None => (out, None)
          | Some n_leechers =>
              match int_or_zero downloaded_match with
              | None => (out, None)
              | Some n_downloads =>
                  let st := {| seeders := n_seeders; leechers := n_leechers;
                               downloads := n_downloads |} in
                  (out ++ [Stats st], Some (Some st))
              end
          end
      end
  end.

(** Lines 21-65. *)
Definition scrape_http_tracker (tracker_url info_hash : str) : run :=
  let scrape_url := ScrapeUrl.scrape_url tracker_url in
  match hex_to_url_encoded info_hash with
  | None => RaisesValueError
  | Some encoded_hash =>
      let out := [Scraping scrape_url] in
      match requests_get scrape_url (PStr encoded_hash) with
      | Response status_code content =>
          if (status_code =? 200)%Z then
            match parse_content content with
            | (out', Some result) => Returns (out ++ out') result
            | (out', None) => Returns (out ++ out' ++ [Error]) None
            end
          else Returns (out ++ [HttpStatus status_code]) None
      | _ => Returns (out ++ [Error]) None
      end
  end.

End Script.

(** The value of the [info_hash] query parameter as it goes on the wire. *)
Definition info_hash_param (info_hash : str) : option str :=
  match hex_to_url_encoded info_hash with
  | Some encoded_hash => Some (encode_param_value (PStr encoded_hash))
  | None => None
  end.

End ManualScrape.

(* ================================================================= *)
(** * [manual-scrape-better.py] *)

Module ManualScrapeBetter.
Import Py Requests Bencode.

(** The returned dictionary; its values are whatever the decoded response
    holds under the three keys. *)
Record stats := { seeders : value; leechers : value; downloads : value }.

Inductive message :=
| Scraping (url : str)
| Stats (st : stats)
| HashNotFound
| NoFilesKey
| ResponseKeys (keys : list bytes)
| DecodeFailed
| ReturnedHtml
| HttpStatus (code : Z)
| TimedOut
| ConnectionFailed
| Error.

Inductive run :=
| Returns (out : list message) (result : option stats)
| RaisesValueError.

(** [key in container] for a [bytes] key; [None] is the [TypeError] raised
    for an [int]. *)
Definition py_in (key : bytes) (container : value) : option bool :=
  match container with
  | Dictionary d => Some (has_key key d)
  | List l =>
      Some (existsb (fun x => match x with
                              | ByteString y => bytes_eqb y key
                              | _ => false
                              end) l)
  | ByteString y => Some (bytes_contains key y)
  | Integer _ => None
  end.

(** [container[key]] for a [bytes] key; [None] is the [KeyError] or
    [TypeError] raised. *)
Definition py_getitem (container : value) (key : bytes) : option value :=
  match container with
  | Dictionary d => lookup key d
  | _ => None
  end.

(** [container.get(key, 0)]; [None] is the [AttributeError] raised when the
    container is not a dictionary. *)
Definition py_get (container : value) (key : bytes) : option value :=
  match container with
  | Dictionary d =>
      match lookup key d with
      | Some v => Some v
      | None => Some (Integer 0)
      end
  | _ => None
  end.

(** [data.keys()]. *)
Definition py_keys (data : value) : option (list bytes) :=
  match data with
  | Dictionary d => Some (map fst d)
  | _ => None
  end.

(** [bytes.lower()]. *)
Definition byte_lower (x : byte) : byte :=
  let n := Byte.to_N x in
  if ((65 <=? n) && (n <=? 90))%N then byte_of_N (n + 32) else x.

(** Lines 45-59, on the decoded response.  [None] is an exception, caught by
    the handler of line 60. *)
Definition read_stats (info_hash_bytes : bytes) (data : value)
  : list message * option (option stats) :=
  match py_in (b "files") data with
  | None => ([], None)
  | Some true =>
      match py_getitem data (b "files") with
      | None => ([], None)
      | Some files =>
          match py_in info_hash_bytes files with
          | None => ([], None)
          | Some true =>
              match py_getitem files info_hash_bytes with
              | None => ([], None)
              | Some st =>
                  match py_get st (b "complete"), py_get st (b "incomplete"),
                        py_get st (b "downloaded") with
                  | Some n_seeders, Some n_leechers, Some n_downloads =>
                      let r := {| seeders := n_seeders; leechers := n_leechers;
                                  downloads := n_downloads |} in
                      ([Stats r], Some (Some r))
                  | _, _, _ => ([], None)
                  end
              end
          | Some false => ([HashNotFound], Some None)
          end
      end
  | Some false =>
      match py_keys data with
      | Some keys => ([NoFilesKey; ResponseKeys keys], Some None)
      | None => ([NoFilesKey], None)
      end
  end.

Section Script.

(** [requests.get(url, params={'info_hash': v}, timeout=10, headers=..)]. *)
Variable requests_get : str -> param_value -> outcome.

(** [bencodepy.decode]; [None] is the exception it raises. *)
Variable bencodepy_decode : bytes -> option value.

(** Lines 40-64. *)
Definition decode_content (info_hash_bytes content : bytes)
  : list message * option stats :=
  let failed (out : list message) :=
    (out ++ [DecodeFailed] ++
     (if bytes_contains (b "<html") (firstn 100 (map byte_lower content))
      then [ReturnedHtml] else []), None) in
  match bencodepy_decode content with
  | None => failed []
  | Some data =>
      match read_stats info_hash_bytes data with
      | (out, Some result) => (out, result)
      | (out, None) => failed out
      end
  end.

(** Lines 15-75. *)
Definition scrape_http_tracker (tracker_url info_hash_hex : str) : run :=
  match bytes_fromhex info_hash_hex with
  | None => RaisesValueError
  | Some info_hash_bytes =>
      let scrape_url := ScrapeUrl.scrape_url tracker_url in
      let out := [Scraping scrape_url] in
      match requests_get scrape_url (PBytes info_hash_bytes) with
      | Response status_code content =>
          if (status_code =? 200)%Z then
            let (out', result) := decode_content info_hash_bytes content in
            Returns (out ++ out') result
          else Returns (out ++ [HttpStatus status_code]) None
      | Timeout => Returns (out ++ [TimedOut]) None
      | ConnectionError => Returns (out ++ [ConnectionFailed]) None
      | OtherError => Returns (out ++ [Error]) None
      end
  end.

End Script.

(** The value of the [info_hash] query parameter as it goes on the wire. *)
Definition info_hash_param (info_hash_hex : str) : option str :=
  match bytes_fromhex info_hash_hex with
  | Some info_hash_bytes => Some (encode_param_value (PBytes info_hash_bytes))
  | None => None
  end.






End ManualScrapeBetter.

(* ================================================================= *)
(** * The codec of the specification *)

Module Codec.
Import Py Bencode.

(** Modelled from the spec: the error taxonomy of section 7; the repository
    has no decoder of its own.  Each decode failure carries the byte offset
    at which it was detected. *)
Inductive DecodeError :=
| TruncatedInputError (offset : nat)
| SyntaxError (offset : nat)
| StructureError (offset : nat).

Inductive failure := Truncated | Syntax | Structure.

(** Result of a production: the value and the unread input, or a failure
    with the number of bytes that were still unread when it was detected. *)
Inductive parse (A : Type) :=
| Parsed (v : A) (rest : bytes)
| Failed (k : failure) (unread : nat).
Arguments Parsed {A} v rest.
Arguments Failed {A} k unread.

(** Modelled from the spec: the decoder settings of section 4.1, a maximum
    nesting depth and a strict mode that rejects keys out of order. *)
Record config := { max_depth : nat; strict_order : bool }.

Definition default_config : config := {| max_depth := 64; strict_order := false |}.

Definition is_byte (c : byte) (lit : string) : bool :=
  match b lit with
  | [x] => byte_eqb c x
  | _ => false
  end.

(** The longest run of ASCII digits at the head of the input. *)
Fixpoint span_digits (l : bytes) : bytes * bytes :=
  match l with
  | [] => ([], [])
  | c :: r =>
      if is_digit c then let (ds, rest) := span_digits r in (c :: ds, rest)
      else ([], l)
  end.

(** A digit run with a leading zero, other than [0] itself. *)
Definition leading_zero (ds : bytes) : bool :=
  match ds with
  | c :: _ :: _ => is_byte c "0"
  | _ => false
  end.

(** When a byte was expected: the input ended, or holds something else. *)
Definition unexpected {A} (l : bytes) : parse A :=
  match l with
  | [] => Failed Truncated 0
  | _ :: _ => Failed Syntax (List.length l)
  end.

(** Modelled from the spec: the integer production [i<digits>e] of section
    4.1, entered after the [i]; no leading zeros, no negative zero. *)
Definition decode_integer (l : bytes) : parse value :=
  let (negative, body) :=
    match l with
    | c :: r => if is_byte c "-" then (true, r) else (false, l)
    | [] => (false, l)
    end in
  let (ds, rest) := span_digits body in
  match ds with
  | [] => unexpected body
  | _ :: _ =>
      if leading_zero ds then Failed Syntax (List.length body)
      else if negative && (int_of_digits ds =? 0)%N then Failed Syntax (List.length l)
      else
        match rest with
        | c :: rest' =>
            if is_byte c "e" then
              Parsed (Integer (if negative then - Z.of_N (int_of_digits ds)
                               else Z.of_N (int_of_digits ds))%Z) rest'
            else Failed Syntax (List.length rest)
        | [] => Failed Truncated 0
        end
  end.

(** Modelled from the spec: the byte-string production [<len>:<bytes>] of
    section 4.1; a length that reaches past the end of the buffer is a
    truncated input. *)
Definition decode_bytes (l : bytes) : parse bytes :=
  let (ds, rest) := span_digits l in
  match ds with
  | [] => unexpected l
  | _ :: _ =>
      if leading_zero ds then Failed Syntax (List.length l)
      else
        match rest with
        | c :: payload =>
            if is_byte c ":" then
              let n := N.to_nat (int_of_digits ds) in
              if (List.length payload <? n)%nat then Failed Truncated 0
              else Parsed (firstn n payload) (skipn n payload)
            else Failed Syntax (List.length rest)
        | [] => Failed Truncated 0
        end
  end.

(** Modelled from the spec: the items of a list, read until the closing [e];
    [dec] decodes one value at the nesting depth of the items.  Every item
    takes at least one byte, so [fuel] as large as the input is enough. *)
Fixpoint decode_items (dec : bytes -> parse value) (fuel : nat) (l : bytes)
  : parse (list value) :=
  match l with
  | [] => Failed Truncated 0
  | c :: r =>
      if is_byte c "e" then Parsed [] r
      else
        match fuel with
        | O => Failed Truncated 0
        | S fuel' =>
            match dec l with
            | Failed k n => Failed k n
            | Parsed v rest =>
                match decode_items dec fuel' rest with
                | Failed k n => Failed k n
                | Parsed vs rest' => Parsed (v :: vs) rest'
                end
            end
        end
  end.

(** A dictionary keeps its entries in byte-lexicographic key order. *)
Fixpoint dict_insert {A} (k : bytes) (v : A) (d : list (bytes * A))
  : list (bytes * A) :=
  match d with
  | [] => [(k, v)]
  | (k', v') :: d' =>
      if bytes_ltb k k' then (k, v) :: d
      else (k', v') :: dict_insert k v d'
  end.

(** Modelled from the spec: the pairs of a dictionary, read until the
    closing [e].  A key is a byte string; a duplicated key is a syntax error
    (section 4.1); a key below its predecessor is accepted unless the strict
    mode is on.  [prev] is the key read last. *)
Fixpoint decode_pairs (strict : bool) (dec : bytes -> parse value) (fuel : nat)
    (prev : option bytes) (acc : list (bytes * value)) (l : bytes)
  : parse (list (bytes * value)) :=
  match l with
  | [] => Failed Truncated 0
  | c :: r =>
      if is_byte c "e" then Parsed acc r
      else
        match fuel with
        | O => Failed Truncated 0
        | S fuel' =>
            match decode_bytes l with
            | Failed k n => Failed k n
            | Parsed key rest =>
                if has_key key acc then Failed Syntax (List.length l)
                else if strict &&
                        match prev with
                        | Some p => bytes_ltb key p
                        | None => false
                        end
                then Failed Syntax (List.length l)
                else
                  match dec rest with
                  | Failed k n => Failed k n
                  | Parsed v rest' =>
                      decode_pairs strict dec fuel' (Some key)
                        (dict_insert key v acc) rest'
                  end
            end
        end
  end.

(** Modelled from the spec: the recursive-descent decoder of section 4.1.
    One byte of lookahead selects the production; [depth] is the number of
    container levels that may still be opened, and opening one more fails
    with a structure error. *)
Fixpoint decode_value (strict : bool) (depth : nat) (l : bytes) : parse value :=
  match l with
  | [] => Failed Truncated 0
  | c :: r =>
      if is_byte c "i" then decode_integer r
      else if is_digit c then
        match decode_bytes l with
        | Parsed x rest => Parsed (ByteString x) rest
        | Failed k n => Failed k n
        end
      else if is_byte c "l" then
        match depth with
        | O => Failed Structure (List.length l)
        | S depth' =>
            match decode_items (decode_value strict depth') (List.length r) r with
            | Parsed vs rest => Parsed (List vs) rest
            | Failed k n => Failed k n
            end
        end
      else if is_byte c "d" then
        match depth with
        | O => Failed Structure (List.length l)
        | S depth' =>
            match decode_pairs strict (decode_value strict depth')
                    (List.length r) None [] r with
            | Parsed d rest => Parsed (Dictionary d) rest
            | Failed k n => Failed k n
            end
        end
      else Failed Syntax (List.length l)
  end.

Definition error_at (total : nat) (k : failure) (unread : nat) : DecodeError :=
  match k with
  | Truncated => TruncatedInputError (total - unread)
  | Syntax => SyntaxError (total - unread)
  | Structure => StructureError (total - unread)
  end.

(** Modelled from the spec: [decode(bytes) -> (BencodeValue, bytes_consumed)]. *)
Definition decode (cfg : config) (l : bytes) : value * nat + DecodeError :=
  match decode_value (strict_order cfg) (max_depth cfg) l with
  | Parsed v rest => inl (v, List.length l - List.length rest)
  | Failed k n => inr (error_at (List.length l) k n)
  end.

(** Modelled from the spec: [decode_all(bytes) -> BencodeValue], which fails
    if bytes remain after the first complete value. *)
Definition decode_all (cfg : config) (l : bytes) : value + DecodeError :=
  match decode_value (strict_order cfg) (max_depth cfg) l with
  | Parsed v [] => inl v
  | Parsed v ((_ :: _) as rest) =>
      inr (SyntaxError (List.length l - List.length rest))
  | Failed k n => inr (error_at (List.length l) k n)
  end.

(** Decimal digits of a number, most significant first; [fuel] bounds the
    number of digits. *)
Definition digit_byte (n : N) : byte := byte_of_N (48 + n).

Fixpoint digits_from (fuel : nat) (n : N) (acc : bytes) : bytes :=
  match fuel with
  | O => acc
  | S fuel' =>
      let acc' := digit_byte (n mod 10) :: acc in
      if (n <? 10)%N then acc' else digits_from fuel' (n / 10) acc'
  end.

Definition decimal (n : N) : bytes :=
  digits_from (S (N.to_nat (N.log2 n))) n [].

(** Modelled from the spec: integers are written [i<decimal>e], without
    leading zeros or a plus sign (section 4.2). *)
Definition encode_integer (z : Z) : bytes :=
  b "i" ++ (if (z <? 0)%Z then b "-" else []) ++ decimal (Z.abs_N z) ++ b "e".

(** Modelled from the spec: byte strings are written [<len>:<raw bytes>]
    (section 4.2). *)
Definition encode_bytes (x : bytes) : bytes :=
  decimal (N.of_nat (List.length x)) ++ b ":" ++ x.

Definition sort_entries {A} (d : list (bytes * A)) : list (bytes * A) :=
  fold_right (fun kv acc => dict_insert (fst kv) (snd kv) acc) [] d.

(** Modelled from the spec: the encoder of section 4.2.  Dictionary members
    are emitted in byte-lexicographic key order whatever the order of the
    entries. *)
Fixpoint encode (v : value) : bytes :=
  match v with
  | Integer z => encode_integer z
  | ByteString x => encode_bytes x
  | List items => b "l" ++ flat_map encode items ++ b "e"
  | Dictionary entries =>
      b "d" ++
      flat_map (fun kx => encode_bytes (fst kx) ++ snd kx)
        (sort_entries (map (fun kv => (fst kv, encode (snd kv))) entries)) ++
      b "e"
  end.

(** Keys in strictly increasing order: unique, and in the order the data
    model asks for. *)
Fixpoint keys_increasing (ks : list bytes) : bool :=
  match ks with
  | [] => true
  | k :: ks' =>
      match ks' with
      | [] => true
      | k' :: _ => bytes_ltb k k' && keys_increasing ks'
      end
  end.

(** Modelled from the spec: the data model of section 3.  A well-formed
    tree: every dictionary has unique keys, held in key order. *)
Fixpoint well_formed (v : value) : bool :=
  match v with
  | Integer _ | ByteString _ => true
  | List items => forallb well_formed items
  | Dictionary entries =>
      keys_increasing (map fst entries) &&
      forallb (fun kv => well_formed (snd kv)) entries
  end.

(** Modelled from the spec: the nesting depth that the decoder bounds, the
    number of containers around the innermost value. *)
Fixpoint depth (v : value) : nat :=
  match v with
  | Integer _ | ByteString _ => O
  | List items => S (fold_right (fun x m => Nat.max (depth x) m) O items)
  | Dictionary entries =>
      S (fold_right (fun kv m => Nat.max (depth (snd kv)) m) O entries)
  end.

(** [n] lists inside one another, around [v]. *)
Fixpoint nest (n : nat) (v : value) : value :=
  match n with
  | O => v
  | S n' => List [nest n' v]
  end.

(** Keys that are pairwise different. *)
Fixpoint keys_unique (ks : list bytes) : bool :=
  match ks with
  | [] => true
  | k :: ks' => negb (existsb (bytes_eqb k) ks') && keys_unique ks'
  end.

(** A tree all of whose dictionaries have unique keys, in whatever order the
    entries were put together. *)
Fixpoint unique_keys (v : value) : bool :=
  match v with
  | Integer _ | ByteString _ => true
  | List items => forallb unique_keys items
  | Dictionary entries =>
      keys_unique (map fst entries) &&
      forallb (fun kv => unique_keys (snd kv)) entries
  end.

(** The same tree with the entries of every dictionary in key order: the
    mapping is the same, its iteration order is the one of the data model. *)
Fixpoint canon (v : value) : value :=
  match v with
  | Integer _ | ByteString _ => v
  | List items => List (map canon items)
  | Dictionary entries =>
      Dictionary (sort_entries (map (fun kv => (fst kv, canon (snd kv))) entries))
  end.

Definition items_depth (items : list value) : nat :=
  fold_right (fun x m => Nat.max (depth x) m) O items.

Definition entries_depth (entries : list (bytes * value)) : nat :=
  fold_right (fun kv m => Nat.max (depth (snd kv)) m) O entries.

Definition canon_entry (kv : bytes * value) : bytes * value :=
  (fst kv, canon (snd kv)).

Definition encode_entry (kv : bytes * value) : bytes :=
  encode_bytes (fst kv) ++ encode (snd kv).

(** What decoding the encoded [v] with [d] levels left has to give: the tree
    when it fits, a structure failure when it is nested deeper. *)
Definition decodes_at (dec : bytes -> parse value) (d : nat) (v : value) : Prop :=
  forall rest,
    (depth v <= d -> dec (encode v ++ rest) = Parsed (canon v) rest) /\
    (d < depth v -> exists n, dec (encode v ++ rest) = Failed Structure n).

End Codec.

(* ================================================================= *)
(** * The decoder as a machine with an explicit work stack *)

Module Machine.
Import Py Bencode Codec.

(** Modelled from the spec: the explicit work stack of the design notes
    (section 9), one frame for each container that is open.  A list frame
    holds the items read so far, the last one first; a dictionary frame the
    key read last, the entries read so far, and the key whose value is being
    read, if one is. *)
Inductive frame :=
| InList (done : list value)
| InDict (prev : option bytes) (acc : list (bytes * value)) (key : option bytes).

(** Modelled from the spec: the states of the iterative decoder.  A value
    starts at the input; or the machine stands inside the container on top
    of the stack, before a member or the closing [e]; or a value is complete
    and goes to the frame on top; or the run is over. *)
Inductive state :=
| Reading (stack : list frame) (l : bytes)
| Within (stack : list frame) (l : bytes)
| Returning (v : value) (stack : list frame) (l : bytes)
| Finished (v : value) (rest : bytes)
| Stopped (k : failure) (unread : nat).

(** Modelled from the spec: one step of the iterative decoder of section
    4.1.  A container is opened only while fewer than [max_depth] are open. *)
Definition step (cfg : config) (st : state) : state :=
  match st with
  | Reading stack l =>
      match l with
      | [] => Stopped Truncated 0
      | c :: r =>
          if is_byte c "i" then
            match decode_integer r with
            | Parsed v rest => Returning v stack rest
            | Failed k n => Stopped k n
            end
          else if is_digit c then
            match decode_bytes l with
            | Parsed x rest => Returning (ByteString x) stack rest
            | Failed k n => Stopped k n
            end
          else if is_byte c "l" then
            if (max_depth cfg <=? List.length stack)%nat
            then Stopped Structure (List.length l)
            else Within (InList [] :: stack) r
          else if is_byte c "d" then
            if (max_depth cfg <=? List.length stack)%nat
            then Stopped Structure (List.length l)
            else Within (InDict None [] None :: stack) r
          else Stopped Syntax (List.length l)
      end
  | Within stack l =>
      match l with
      | [] => Stopped Truncated 0
      | c :: r =>
          match stack with
          | InList done :: below =>
              if is_byte c "e" then Returning (List (rev done)) below r
              else Reading stack l
          | InDict prev acc None :: below =>
              if is_byte c "e" then Returning (Dictionary acc) below r
              else
                match decode_bytes l with
                | Failed k n => Stopped k n
                | Parsed key rest =>
                    if has_key key acc then Stopped Syntax (List.length l)
                    else if strict_order cfg &&
                            match prev with
                            | Some p => bytes_ltb key p
                            | None => false
                            end
                    then Stopped Syntax (List.length l)
                    else Reading (InDict prev acc (Some key) :: below) rest
                end
          | _ => Stopped Syntax (List.length l)
          end
      end
  | Returning v stack l =>
      match stack with
      | [] => Finished v l
      | InList done :: below => Within (InList (v :: done) :: below) l
      | InDict prev acc (Some key) :: below =>
          Within (InDict (Some key) (dict_insert key v acc) None :: below) l
      | InDict _ _ None :: below => Stopped Syntax (List.length l)
      end
  | Finished _ _ | Stopped _ _ => st
  end.

(** [n] steps. *)
Fixpoint steps (cfg : config) (n : nat) (st : state) : state :=
  match n with
  | O => st
  | S n' => steps cfg n' (step cfg st)
  end.

(** The state a run on [l] starts in. *)
Definition start (l : bytes) : state := Reading [] l.

(** The work stack of a state. *)
Definition stack_of (st : state) : list frame :=
  match st with
  | Reading stack _ | Within stack _ | Returning _ stack _ => stack
  | Finished _ _ | Stopped _ _ => []
  end.

(** What a value takes in memory, counted in nodes and bytes. *)
Fixpoint value_size (v : value) : nat :=
  match v with
  | Integer _ => 1
  | ByteString x => 1 + List.length x
  | List items => 1 + fold_right (fun x n => value_size x + n) 0 items
  | Dictionary entries =>
      1 + fold_right (fun kv n => List.length (fst kv) + value_size (snd kv) + n)
            0 entries
  end.

Definition values_size (vs : list value) : nat :=
  fold_right (fun x n => value_size x + n) 0 vs.

Definition entries_size (es : list (bytes * value)) : nat :=
  fold_right (fun kv n => List.length (fst kv) + value_size (snd kv) + n) 0 es.

Definition frame_size (f : frame) : nat :=
  match f with
  | InList done => 1 + values_size done
  | InDict _ acc key =>
      1 + entries_size acc +
      match key with
      | Some k => List.length k
      | None => 0
      end
  end.

Definition stack_size (stack : list frame) : nat :=
  fold_right (fun f n => frame_size f + n) 0 stack.

(** What a state holds: its stack, the value in hand and the unread input. *)
Definition weight (st : state) : nat :=
  match st with
  | Reading stack l | Within stack l => stack_size stack + List.length l
  | Returning v stack l => value_size v + stack_size stack + List.length l
  | Finished v rest => value_size v + List.length rest
  | Stopped _ _ => 0
  end.

(** A run is over once it has finished or stopped. *)
Definition over (st : state) : bool :=
  match st with
  | Finished _ _ | Stopped _ _ => true
  | _ => false
  end.

(** [st'] is reached from [st]. *)
Definition reaches (cfg : config) (st st' : state) : Prop :=
  exists n, steps cfg n st = st'.

(** What the machine has to do where the recursive decoder gives [r]. *)
Definition follows (cfg : config) (from : state) (ret : value -> bytes -> state)
    (r : parse value) : Prop :=
  match r with
  | Parsed v rest => reaches cfg from (ret v rest)
  | Failed k u => reaches cfg from (Stopped k u)
  end.

(** A dictionary with its keys out of order, and in it a list nested 65
    deep: a document that no encoder writes. *)
Definition unsorted_deep_document : bytes :=
  b "d1:bi0e1:a" ++ repeat "l"%byte 65 ++ repeat "e"%byte 65 ++ b "e".

End Machine.

(* ================================================================= *)
(** * More of the Python library, as the scripts' top level uses it *)

Module PyText.
Import Py.

(** [==] on [str]. *)
Fixpoint str_eqb (x y : str) : bool :=
  match x, y with
  | [], [] => true
  | c :: x', d :: y' => ascii_eqb c d && str_eqb x' y'
  | _, _ => false
  end.

(** [str.lower()] on one ASCII character. *)
Definition ascii_lower (c : ascii) : ascii :=
  let n := N_of_ascii c in
  if ((65 <=? n) && (n <=? 90))%N then ascii_of_N (n + 32) else c.

(** [str.lower()] for text in ASCII. *)
Definition lower (t : str) : str := map ascii_lower t.

(** [bytes.decode()] for bytes below 128. *)
Definition decode_ascii (x : bytes) : str := map chr x.

(** One lower-case hexadecimal digit. *)
Definition hex_lower (n : N) : byte :=
  if (n <? 10)%N then byte_of_N (48 + n) else byte_of_N (87 + n).

(** [binascii.hexlify(x)]: two lower-case hexadecimal digits per byte. *)
Definition hexlify (x : bytes) : bytes :=
  flat_map (fun c => [hex_lower (Byte.to_N c / 16); hex_lower (Byte.to_N c mod 16)]) x.

(** The characters [quote] leaves in its output: the unreserved ones and the
    percent sign of an escape. *)
Definition url_char (c : ascii) : bool :=
  let n := N_of_ascii c in
  (((65 <=? n) && (n <=? 90)) || ((97 <=? n) && (n <=? 122)) ||
   ((48 <=? n) && (n <=? 57)) ||
   (n =? 95) || (n =? 46) || (n =? 45) || (n =? 126) || (n =? 37))%N.

(** What [quote_plus] makes of one byte. *)
Definition plus_quoter (x : byte) : str :=
  if byte_eqb x " "%byte then ["+"%char] else Urllib.quoter [] x.

(** Decoding of a form-encoded value: [+] stands for a space, then the
    percent escapes are resolved. *)
Definition form_decode (t : str) : bytes :=
  Urllib.unquote_to_bytes (str_replace (s "+") (s " ") t).

End PyText.

(* ================================================================= *)
(** * The top level of [manual-scrape.py] *)

Module ManualScrapeMain.
Import Py Requests ManualScrape.

(** Line 12. *)
Definition info_hash : str := s "ba0e267579fa62981795dcc059fb61e1af5ca429".

(** Lines 68-74. *)
Definition http_trackers : list str :=
  [s "http://tracker.opentrackr.org:1337/announce";
   s "http://open.acgnxtracker.com:80/announce";
   s "http://tracker.openbittorrent.com:80/announce";
   s "http://tracker.internetwarriors.net:1337/announce";
   s "http://exodus.desync.com:6969/announce"].

(** What the script prints: its own lines and those of the function. *)
Inductive line :=
| Testing (hash : str)
| Printed (m : message)
| Blank
| NoteUdp
| NoteClients.

(** The script runs to its end, or stops on the [ValueError] that escapes
    from [scrape_http_tracker]. *)
Inductive script :=
| Completed (out : list line)
| Aborted (out : list line).

Section Script.
Variable requests_get : str -> param_value -> outcome.
Variable int_max_str_digits : nat.

(** Lines 78-80: the loop over the trackers, [out] being what was printed so
    far. *)
Fixpoint scrape_each (hash : str) (trackers : list str) (out : list line) : script :=
  match trackers with
  | [] => Completed out
  | tracker :: rest =>
      match scrape_http_tracker requests_get int_max_str_digits tracker hash with
      | RaisesValueError => Aborted out
      | Returns printed _ =>
          scrape_each hash rest (out ++ map Printed printed ++ [Blank])
      end
  end.

(** Lines 76-83, for a list of trackers and a hash. *)
Definition run_with (trackers : list str) (hash : str) : script :=
  match scrape_each hash trackers [Testing hash] with
  | Completed out => Completed (out ++ [NoteUdp; NoteClients])
  | Aborted out => Aborted out
  end.

(** The script as it stands. *)
Definition main : script := run_with http_trackers info_hash.

End Script.

(** The request lines among the printed ones. *)
Definition requested (out : list line) : list str :=
  flat_map (fun l => match l with
                     | Printed (Scraping url) => [url]
                     | _ => []
                     end) out.

End ManualScrapeMain.

(* ================================================================= *)
(** * The top level of [manual-scrape-better.py] *)

Module ManualScrapeBetterMain.
Import Py Requests Bencode ManualScrapeBetter PyText.

(** Line 13. *)
Definition info_hash : str := s "ba0e267579fa62981795dcc059fb61e1af5ca429".

(** Lines 78-88. *)
Definition trackers : list str :=
  [s "udp://tracker.opentrackr.org:1337/announce";
   s "http://nyaa.tracker.wf:7777/announce";
   s "http://tracker.files.fm:6969/announce";
   s "http://1337.abcvg.info:80/announce";
   s "http://bt.okmp3.ru:2710/announce";
   s "https://tracker.tamersunion.org:443/announce";
   s "http://open.tracker.ink:6969/announce";
   s "http://tracker.mywaifu.best:6969/announce";
   s "http://tracker.dler.org:6969/announce"].

Inductive line :=
| Testing (hash : str)
| BinaryHash (hex : str)
| Printed (m : message)
| Skipping (tracker : str)
| Blank
| SummaryHeader
| Attempted (n : nat)
| Skipped (n : nat)
| Successes (n : nat)
| ResultsHeader
| ResultTracker (tracker : str)
| ResultStats (st : stats).

(** The variables the loop updates. *)
Record counters := {
  http_count : nat;
  udp_count : nat;
  successful : list (str * stats)
}.

(** The script runs to its end, or stops on a [ValueError]. *)
Inductive script :=
| Completed (final : counters) (out : list line)
| Aborted (out : list line).

(** [scheme in ['http', 'https']]. *)
Definition is_http (scheme : str) : bool :=
  str_eqb scheme (s "http") || str_eqb scheme (s "https").

Section Script.
Variable requests_get : str -> param_value -> outcome.
Variable bencodepy_decode : bytes -> option value.

(** [urlparse(url).scheme]; [None] is the [ValueError] that [urlparse]
    raises for some malformed URLs. *)
Variable urlparse_scheme : str -> option str.

(** Lines 97-107: the loop over the trackers. *)
Fixpoint scrape_each (hash : str) (rest : list str) (st : counters)
    (out : list line) : script :=
  match rest with
  | [] => Completed st out
  | tracker :: rest' =>
      match urlparse_scheme tracker with
      | None => Aborted out
      | Some scheme =>
          if is_http scheme then
            match scrape_http_tracker requests_get bencodepy_decode tracker hash with
            | RaisesValueError => Aborted out
            | Returns printed result =>
                let st' :=
                  {| http_count := http_count st + 1;
                     udp_count := udp_count st;
                     successful :=
                       match result with
                       | Some r => successful st ++ [(tracker, r)]
                       | None => successful st
                       end |} in
                scrape_each hash rest' st' (out ++ map Printed printed ++ [Blank])
            end
          else
            scrape_each hash rest'
              {| http_count := http_count st;
                 udp_count := udp_count st + 1;
                 successful := successful st |}
              (out ++ [Skipping tracker; Blank])
      end
  end.

(** Lines 109-118: the summary. *)
Definition summary (st : counters) : list line :=
  [SummaryHeader; Attempted (http_count st); Skipped (udp_count st);
   Successes (List.length (successful st))] ++
  match successful st with
  | [] => []
  | _ :: _ =>
      ResultsHeader ::
      flat_map (fun tr => [ResultTracker (fst tr); ResultStats (snd tr)])
        (successful st)
  end.

(** Lines 90-118, for a list of trackers and a hash. *)
Definition run_with (all : list str) (hash : str) : script :=
  match bytes_fromhex hash with
  | None => Aborted [Testing hash]
  | Some raw =>
      match scrape_each hash all
              {| http_count := 0; udp_count := 0; successful := [] |}
              [Testing hash; BinaryHash (decode_ascii (hexlify raw))] with
      | Completed st out => Completed st (out ++ summary st)
      | Aborted out => Aborted out
      end
  end.

(** The script as it stands. *)
Definition main : script := run_with trackers info_hash.

(** What one tracker adds to [successful]: itself and its statistics, when
    its scheme is [http] or [https] and the scrape returned some. *)
Definition success_of (hash tracker : str) : list (str * stats) :=
  match urlparse_scheme tracker with
  | Some scheme =>
      if is_http scheme then
        match scrape_http_tracker requests_get bencodepy_decode tracker hash with
        | Returns _ (Some r) => [(tracker, r)]
        | _ => []
        end
      else []
  | None => []
  end.

(** A tracker that the loop scrapes. *)
Definition is_http_tracker (tracker : str) : bool :=
  match urlparse_scheme tracker with
  | Some scheme => is_http scheme
  | None => false
  end.

End Script.

(** Everything a run printed. *)
Definition output (r : script) : list line :=
  match r with
  | Completed _ out => out
  | Aborted out => out
  end.

End ManualScrapeBetterMain.

(* ================================================================= *)
(** * Facts about the Python string operations *)

Module PyFacts.
Import Py.

Lemma ascii_eqb_eq (x y : ascii) : ascii_eqb x y = true <-> x = y.
Proof. apply Ascii.eqb_eq. Qed.

Lemma ascii_eqb_refl (x : ascii) : ascii_eqb x x = true.
Proof. apply Ascii.eqb_refl. Qed.

Lemma startswith_app (p t : str) : startswith ascii_eqb p (p ++ t) = true.
Proof.
  induction p as [|x p IH]; simpl; [reflexivity|].
  now rewrite ascii_eqb_refl, IH.
Qed.

Lemma startswith_inv (p l : str) :
  startswith ascii_eqb p l = true -> l = p ++ skipn (List.length p) l.
Proof.
  revert l; induction p as [|x p IH]; intros [|y l]; simpl; try easy.
  intros H. apply andb_true_iff in H as [Hxy Hp].
  apply ascii_eqb_eq in Hxy. subst y. f_equal. now apply IH.
Qed.

Lemma startswith_longer (p l t : str) :
  startswith ascii_eqb p l = true -> startswith ascii_eqb p (l ++ t) = true.
Proof.
  revert l; induction p as [|x p IH]; intros [|y l]; simpl; try easy.
  intros H. apply andb_true_iff in H as [Hxy Hp].
  now rewrite Hxy, (IH _ Hp).
Qed.

Section Replace.
Variables old new : str.

Lemma replace_from_skip (k : nat) (l : str) :
  replace_from ascii_eqb old new k l
  = replace_from ascii_eqb old new 0 (skipn k l).
Proof.
  revert k; induction l as [|c l IH]; intros [|k]; simpl; try reflexivity.
  apply IH.
Qed.

Lemma replace_hit_at (l : str) :
  old <> [] ->
  startswith ascii_eqb old l = true ->
  str_replace old new l = new ++ str_replace old new (skipn (List.length old) l).
Proof.
  intros Hold H. unfold str_replace, replace.
  destruct l as [|c l].
  - destruct old; [congruence | discriminate].
  - cbn [replace_from]. rewrite H. f_equal.
    rewrite replace_from_skip. f_equal.
    destruct old as [|x p]; [congruence|].
    cbn [List.length]. now rewrite Nat.sub_succ, Nat.sub_0_r.
Qed.

Lemma replace_hit (t : str) :
  old <> [] ->
  str_replace old new (old ++ t) = new ++ str_replace old new t.
Proof.
  intros Hold. rewrite replace_hit_at by (auto using startswith_app).
  now rewrite skipn_app, Nat.sub_diag, skipn_all.
Qed.

Lemma replace_miss (c : ascii) (l : str) :
  startswith ascii_eqb old (c :: l) = false ->
  str_replace old new (c :: l) = c :: str_replace old new l.
Proof.
  intros H. unfold str_replace, replace. cbn [replace_from]. now rewrite H.
Qed.

Lemma replace_absent (l : str) :
  str_contains old l = false -> str_replace old new l = l.
Proof.
  induction l as [|c l IH]; [reflexivity|].
  unfold str_contains. cbn [contains]. intros H.
  apply orb_false_iff in H as [H1 H2].
  rewrite (replace_miss _ _ H1). f_equal. now apply IH.
Qed.

End Replace.

Lemma contains_cons_false (p : str) (c : ascii) (l : str) :
  str_contains p (c :: l) = false ->
  startswith ascii_eqb p (c :: l) = false /\ str_contains p l = false.
Proof.
  unfold str_contains. cbn [contains]. intros H.
  now apply orb_false_iff in H.
Qed.

(** [rstrip] removes a run of the stripped character and nothing more. *)
Lemma rstrip_slash (l : str) :
  exists k, l = str_rstrip (s "/") l ++ repeat "/"%char k /\
            last (str_rstrip (s "/") l) "x"%char <> "/"%char.
Proof.
  unfold str_rstrip.
  induction l as [|c l (k & Hl & Hlast)]; [exists 0; simpl; split; easy|].
  cbn [rstrip].
  destruct (rstrip ascii_eqb (s "/") l) as [|y r] eqn:E.
  - cbn [existsb s list_ascii_of_string].
    destruct (ascii_eqb c "/"%char) eqn:Ec; cbn [orb].
    + apply ascii_eqb_eq in Ec. subst c. exists (S k).
      split; [now rewrite Hl at 1 | easy].
    + exists k. split; [now rewrite Hl at 1|].
      simpl. intros ->. now rewrite ascii_eqb_refl in Ec.
  - exists k. split; [now rewrite Hl at 1|]. exact Hlast.
Qed.

End PyFacts.

(* ================================================================= *)
(** * The scrape URL *)

Module ScrapeUrlFacts.
Import Py PyFacts ScrapeUrl.

Lemma announce_nonempty : announce <> [].
Proof. discriminate. Qed.

(** The first occurrence splits the URL, and the replacement goes on behind
    it. *)
Lemma first_occurrence (u : str) :
  str_contains announce u = true ->
  exists a t,
    u = a ++ announce ++ t /\
    str_contains announce a = false /\
    str_replace announce scrape u = a ++ scrape ++ str_replace announce scrape t.
Proof.
  induction u as [|c u IH]; [discriminate|].
  intros H.
  destruct (startswith ascii_eqb announce (c :: u)) eqn:E.
  - exists [], (skipn (List.length announce) (c :: u)).
    split; [exact (startswith_inv _ _ E)|]. split; [reflexivity|].
    now apply replace_hit_at; [apply announce_nonempty|].
  - unfold str_contains in H. cbn [contains] in H. rewrite E in H.
    destruct (IH H) as (a & t & Hu & Ha & Hr).
    exists (c :: a), t. split; [now rewrite Hu|]. split.
    + unfold str_contains. cbn [contains]. apply orb_false_iff. split; [|exact Ha].
      destruct (startswith ascii_eqb announce (c :: a)) eqn:E'; [|reflexivity].
      apply (startswith_longer _ _ (announce ++ t)) in E'.
      cbn [app] in E'. rewrite <- Hu in E'. congruence.
    + rewrite (replace_miss _ _ _ _ E). now rewrite Hr.
Qed.

Lemma all_replaced (u : str) : AllReplaced u (str_replace announce scrape u).
Proof.
  remember (List.length u) as n eqn:Hn.
  revert u Hn. induction n as [n IH] using lt_wf_ind. intros u Hn.
  destruct (str_contains announce u) eqn:E.
  - destruct (first_occurrence u E) as (a & t & Hu & Ha & Hr).
    rewrite Hr, Hu. apply AR_next; [exact Ha|].
    apply (IH (List.length t)); [|reflexivity].
    subst n u. rewrite !length_app. simpl. lia.
  - rewrite (replace_absent _ _ _ E). now apply AR_none.
Qed.

(** A word without [/] that heads the replaced text heads the text. *)
Lemma startswith_replaced (w l : str) :
  forallb (fun c => negb (ascii_eqb c "/"%char)) w = true ->
  startswith ascii_eqb w (str_replace announce scrape l) = true ->
  startswith ascii_eqb w l = true.
Proof.
  revert l. induction w as [|x w IH]; [reflexivity|].
  intros l Hw. cbn [forallb] in Hw. apply andb_true_iff in Hw as [Hx Hw].
  destruct l as [|c l]; [discriminate|].
  destruct (startswith ascii_eqb announce (c :: l)) eqn:E.
  - rewrite (replace_hit_at _ _ _ announce_nonempty E).
    cbn [scrape s list_ascii_of_string app startswith].
    apply negb_true_iff in Hx. now rewrite Hx.
  - rewrite (replace_miss _ _ _ _ E). cbn [startswith].
    intros H. apply andb_true_iff in H as [Hxc H].
    rewrite Hxc. now apply IH.
Qed.

Lemma no_announce_left (u : str) :
  str_contains announce (str_replace announce scrape u) = false.
Proof.
  remember (List.length u) as n eqn:Hn.
  revert u Hn. induction n as [n IH] using lt_wf_ind. intros u Hn.
  destruct u as [|c u]; [reflexivity|].
  destruct (startswith ascii_eqb announce (c :: u)) eqn:E.
  - rewrite (replace_hit_at _ _ _ announce_nonempty E).
    pose proof (startswith_inv _ _ E) as Hu.
    set (t := skipn (List.length announce) (c :: u)) in *.
    assert (Ht : str_contains announce (str_replace announce scrape t) = false).
    { apply (IH (List.length t)); [|reflexivity].
      subst n. rewrite Hu, length_app. simpl. lia. }
    revert Ht. generalize (str_replace announce scrape t). intros r Hr.
    unfold str_contains in *. cbn. exact Hr.
  - rewrite (replace_miss _ _ _ _ E).
    unfold str_contains. cbn [contains]. apply orb_false_iff. split.
    + destruct (startswith ascii_eqb announce (c :: str_replace announce scrape u))
        eqn:E'; [|reflexivity].
      change announce with ("/"%char :: s "announce") in E', E.
      cbn [startswith] in E', E. apply andb_true_iff in E' as [Hc E'].
      apply startswith_replaced in E'; [|reflexivity].
      rewrite Hc, E' in E. discriminate.
    + apply (IH (List.length u)); [|reflexivity]. subst n. simpl. lia.
Qed.

(** C1, as the claim has it, fails: [replace] rewrites every occurrence of
    the text [/announce], so an earlier path segment and the head of
    [/announcements] are rewritten too. *)
Lemma scrape_url_not_last_segment_only :
  scrape_url (s "http://tracker.example/announce/x/announcements")
    = s "http://tracker.example/scrape/x/scrapements" /\
  spec_scrape_url (s "http://tracker.example/announce/x/announcements")
    = s "http://tracker.example/scrape/x/announcements" /\
  scrape_url (s "http://tracker.example/announce/x/announcements")
    <> spec_scrape_url (s "http://tracker.example/announce/x/announcements").
Proof. repeat split. vm_compute. discriminate. Qed.

(** C1, amended: a URL that holds the text [/announce] has every occurrence
    of it, taken from the left, replaced by [/scrape], and none is left; a
    URL that does not hold it loses its trailing slashes and gets [/scrape]
    appended. *)
Theorem scrape_url_replaces_every_occurrence (u : str) :
  (str_contains announce u = true /\
   AllReplaced u (scrape_url u) /\
   str_contains announce (scrape_url u) = false)
  \/
  (str_contains announce u = false /\
   exists base k,
     u = base ++ repeat "/"%char k /\
     last base "x"%char <> "/"%char /\
     scrape_url u = base ++ scrape).
Proof.
  unfold scrape_url. destruct (str_contains announce u) eqn:E.
  - left. split; [reflexivity|]. split; [apply all_replaced | apply no_announce_left].
  - right. split; [reflexivity|].
    destruct (rstrip_slash u) as (k & Hu & Hlast).
    exists (str_rstrip (s "/") u), k. now repeat split.
Qed.

End ScrapeUrlFacts.

(* ================================================================= *)
(** * Percent-encoding of the info hash *)

Module InfoHashFacts.
Import Py Requests.

Lemma hex_char_not_space (c : ascii) :
  is_hex_char c = true -> is_ascii_space c = false.
Proof.
  unfold is_hex_char, is_ascii_space, hexval.
  set (n := N_of_ascii c).
  destruct ((48 <=? n) && (n <=? 57))%N eqn:E1;
    [|destruct ((97 <=? n) && (n <=? 102))%N eqn:E2;
      [|destruct ((65 <=? n) && (n <=? 70))%N eqn:E3]];
    intros Hc; try discriminate Hc; clear Hc;
    match goal with
    | H : (_ && _)%bool = true |- _ =>
        apply andb_true_iff in H as [Ha Hb];
        apply N.leb_le in Ha; apply N.leb_le in Hb
    end;
    apply orb_false_iff; split;
    [apply N.eqb_neq; lia | apply andb_false_iff; right; apply N.leb_gt; lia
    |apply N.eqb_neq; lia | apply andb_false_iff; right; apply N.leb_gt; lia
    |apply N.eqb_neq; lia | apply andb_false_iff; right; apply N.leb_gt; lia].
Qed.

(** [bytes.fromhex] accepts an even number of hexadecimal digits and gives
    half as many bytes. *)
Lemma fromhex_digits (n : nat) (h : str) :
  List.length h = 2 * n ->
  forallb is_hex_char h = true ->
  exists raw, bytes_fromhex h = Some raw /\ List.length raw = n.
Proof.
  revert h. induction n as [|n IH]; intros h Hlen Hhex.
  - destruct h; [|discriminate]. now exists [].
  - destruct h as [|c [|d h]]; try (simpl in Hlen; lia).
    cbn [forallb] in Hhex.
    apply andb_true_iff in Hhex as [Hc Hhex].
    apply andb_true_iff in Hhex as [Hd Hhex].
    destruct (IH h) as (raw & Hraw & Hn); [simpl in Hlen; lia | exact Hhex |].
    cbn [bytes_fromhex]. rewrite (hex_char_not_space _ Hc).
    unfold is_hex_char in Hc, Hd.
    destruct (hexval (N_of_ascii c)) as [hi|]; [|discriminate].
    destruct (hexval (N_of_ascii d)) as [lo|]; [|discriminate].
    rewrite Hraw. eexists. split; [reflexivity|]. simpl. now rewrite Hn.
Qed.

Lemma unquote_plain (c : byte) (r : bytes) :
  byte_eqb c "%"%byte = false ->
  Urllib.unquote_bytes (c :: r) = c :: Urllib.unquote_bytes r.
Proof.
  intros H. destruct r as [|h1 [|h2 r]]; cbn [Urllib.unquote_bytes];
    try reflexivity. now rewrite H.
Qed.

Lemma unquote_escape (h1 h2 : byte) (hi lo : N) (r : bytes) :
  hexval (Byte.to_N h1) = Some hi ->
  hexval (Byte.to_N h2) = Some lo ->
  Urllib.unquote_bytes ("%"%byte :: h1 :: h2 :: r)
  = byte_of_N (16 * hi + lo) :: Urllib.unquote_bytes r.
Proof.
  intros H1 H2. cbn [Urllib.unquote_bytes]. now rewrite H1, H2.
Qed.

(** One quoted byte decodes to itself, whatever follows. *)
Lemma unquote_quoter (x : byte) (r : bytes) :
  Urllib.unquote_bytes (utf8_encode (Urllib.quoter [] x) ++ r)
  = x :: Urllib.unquote_bytes r.
Proof.
  destruct x;
    match goal with
    | |- Urllib.unquote_bytes (?q ++ _) = _ =>
        let v := eval vm_compute in q in change q with v
    end;
    cbn [app];
    first [ apply unquote_plain; reflexivity
          | erewrite unquote_escape by (vm_compute; reflexivity);
            f_equal ].
Qed.

Lemma unquote_quote (raw : bytes) :
  Urllib.unquote_to_bytes (Urllib.quote raw []) = raw.
Proof.
  unfold Urllib.unquote_to_bytes, Urllib.quote, utf8_encode.
  induction raw as [|x raw IH]; [reflexivity|].
  cbn [flat_map]. rewrite flat_map_app.
  fold (utf8_encode (Urllib.quoter [] x)).
  rewrite unquote_quoter. now rewrite IH.
Qed.

(** C9: for a string of 40 hexadecimal digits, [hex_to_url_encoded] returns
    a text whose percent-decoding is [bytes.fromhex] of the string, a
    sequence of 20 bytes. *)
Theorem hex_to_url_encoded_decodes (h : str) :
  List.length h = 40 ->
  forallb is_hex_char h = true ->
  exists raw enc,
    bytes_fromhex h = Some raw /\
    List.length raw = 20 /\
    ManualScrape.hex_to_url_encoded h = Some enc /\
    Urllib.unquote_to_bytes enc = raw.
Proof.
  intros Hlen Hhex.
  destruct (fromhex_digits 20 h Hlen Hhex) as (raw & Hraw & Hn).
  exists raw, (Urllib.quote raw []).
  unfold ManualScrape.hex_to_url_encoded. rewrite Hraw.
  repeat split; [exact Hn | apply unquote_quote].
Qed.

Lemma hex_to_url_encoded_decodes_witness :
  exists raw enc,
    bytes_fromhex (s "ba0e267579fa62981795dcc059fb61e1af5ca429") = Some raw /\
    List.length raw = 20 /\
    ManualScrape.hex_to_url_encoded (s "ba0e267579fa62981795dcc059fb61e1af5ca429")
      = Some enc /\
    Urllib.unquote_to_bytes enc = raw.
Proof.
  apply (hex_to_url_encoded_decodes (s "ba0e267579fa62981795dcc059fb61e1af5ca429"));
    reflexivity.
Defined.

(** C3: the two scripts put different values on the wire for the info hash
    the scripts themselves query: [manual-scrape.py] quotes the bytes and the
    client quotes the result again, [manual-scrape-better.py] has the client
    quote the bytes once. *)
Theorem info_hash_params_differ :
  exists h p1 p2,
    List.length h = 40 /\
    forallb is_hex_char h = true /\
    ManualScrape.info_hash_param h = Some p1 /\
    ManualScrapeBetter.info_hash_param h = Some p2 /\
    p1 = s "%25BA%250E%2526uy%25FAb%2598%2517%2595%25DC%25C0Y%25FBa%25E1%25AF%255C%25A4%2529" /\
    p2 = s "%BA%0E%26uy%FAb%98%17%95%DC%C0Y%FBa%E1%AF%5C%A4%29" /\
    p1 <> p2.
Proof.
  exists (s "ba0e267579fa62981795dcc059fb61e1af5ca429").
  do 2 eexists. repeat split; try (vm_compute; reflexivity).
  vm_compute. discriminate.
Qed.

End InfoHashFacts.

(* ================================================================= *)
(** * The pattern-matching extractor of [manual-scrape.py] *)

Module ManualScrapeFacts.
Import Py Requests ManualScrape.

(** A 200 response whose body matches neither the [complete] nor the
    [incomplete] pattern is reported as unparseable. *)
Lemma parse_content_no_match (limit : nat) (content : bytes) :
  re_search (b "8:complete") content = None ->
  re_search (b "10:incomplete") content = None ->
  parse_content limit content =
    ([ResponseLength (List.length content); RawResponse (firstn 200 content);
      CouldNotParse], Some None).
Proof.
  intros H1 H2. unfold parse_content. now rewrite H1, H2.
Qed.

(** Statistics come out only when one of the two patterns matched. *)
Lemma parse_content_stats (limit : nat) (content : bytes) out st :
  parse_content limit content = (out, Some (Some st)) ->
  re_search (b "8:complete") content <> None \/
  re_search (b "10:incomplete") content <> None.
Proof.
  unfold parse_content.
  destruct (re_search (b "8:complete") content) eqn:H1; [left; discriminate|].
  destruct (re_search (b "10:incomplete") content) eqn:H2; [right; discriminate|].
  discriminate.
Qed.

(** C10: when the body of a 200 response matches neither the [complete] nor
    the [incomplete] pattern, the function prints that it could not parse the
    response and returns [None], whether or not the [downloaded] pattern
    matches; and whenever it returns statistics, one of the [complete] and
    [incomplete] patterns matched the body. *)
Theorem downloaded_alone_is_discarded
    (requests_get : str -> param_value -> outcome) (limit : nat)
    (tracker_url info_hash encoded : str) (content : bytes) :
  hex_to_url_encoded info_hash = Some encoded ->
  requests_get (ScrapeUrl.scrape_url tracker_url) (PStr encoded)
    = Response 200 content ->
  (re_search (b "8:complete") content = None ->
   re_search (b "10:incomplete") content = None ->
   exists out,
     scrape_http_tracker requests_get limit tracker_url info_hash = Returns out None /\
     In CouldNotParse out)
  /\
  (forall out st,
     scrape_http_tracker requests_get limit tracker_url info_hash
       = Returns out (Some st) ->
     re_search (b "8:complete") content <> None \/
     re_search (b "10:incomplete") content <> None).
Proof.
  intros Henc Hget. unfold scrape_http_tracker. rewrite Henc, Hget.
  change (200 =? 200)%Z with true. cbv iota. split.
  - intros H1 H2. rewrite (parse_content_no_match _ _ H1 H2).
    eexists. split; [reflexivity|]. simpl. auto.
  - intros out st.
    destruct (parse_content limit content) as [out' [result|]] eqn:E;
      [|discriminate].
    intros H. injection H as _ ->. eapply parse_content_stats, E.
Qed.

Lemma downloaded_alone_is_discarded_witness :
  re_search (b "10:downloaded") (b "d5:filesd1:xd10:downloadedi7eeee") = Some (b "7") /\
  exists out,
    scrape_http_tracker (fun _ _ => Response 200 (b "d5:filesd1:xd10:downloadedi7eeee"))
      4300 (s "http://tracker.example/announce")
      (s "ba0e267579fa62981795dcc059fb61e1af5ca429") = Returns out None /\
    In CouldNotParse out.
Proof.
  split; [reflexivity|].
  refine (proj1 (downloaded_alone_is_discarded
                   (fun _ _ => Response 200 (b "d5:filesd1:xd10:downloadedi7eeee"))
                   4300 (s "http://tracker.example/announce")
                   (s "ba0e267579fa62981795dcc059fb61e1af5ca429") _ _ eq_refl eq_refl)
                _ _); reflexivity.
Defined.

End ManualScrapeFacts.

(* ================================================================= *)
(** * The lookups of [manual-scrape-better.py] *)

Module ManualScrapeBetterFacts.
Import Py Requests Bencode ManualScrapeBetter.

Lemma has_key_lookup {A} (k : bytes) (d : list (bytes * A)) :
  has_key k d = match lookup k d with Some _ => true | None => false end.
Proof.
  unfold has_key. induction d as [|[k' v] d IH]; [reflexivity|].
  cbn [existsb lookup fst]. destruct (bytes_eqb k' k); [reflexivity | exact IH].
Qed.

Section Lookups.
Variable requests_get : str -> param_value -> outcome.
Variable bencodepy_decode : bytes -> option value.




(** C5: when the decoded response is a dictionary whose [files] dictionary
    has a dictionary for the queried identifier, the function returns what
    that dictionary holds under [complete], [incomplete] and [downloaded] as
    seeders, leechers and downloads, with the integer zero for a key that is
    absent. *)
Theorem counters_default_to_zero
    (tracker_url info_hash_hex : str) (id content : bytes)
    (d f st : list (bytes * value)) :
  bytes_fromhex info_hash_hex = Some id ->
  requests_get (ScrapeUrl.scrape_url tracker_url) (PBytes id)
    = Response 200 content ->
  bencodepy_decode content = Some (Dictionary d) ->
  lookup (b "files") d = Some (Dictionary f) ->
  lookup id f = Some (Dictionary st) ->
  let field key :=
    match lookup key st with
    | Some v => v
    | None => Integer 0
    end in
  exists out,
    scrape_http_tracker requests_get bencodepy_decode tracker_url info_hash_hex
    = Returns out
        (Some {| seeders := field (b "complete");
                 leechers := field (b "incomplete");
                 downloads := field (b "downloaded") |}).
Proof.
  intros Hid Hget Hdec Hfiles Hentry field.
  unfold scrape_http_tracker. rewrite Hid, Hget.
  change (200 =? 200)%Z with true. cbv iota.
  unfold decode_content. rewrite Hdec.
  unfold read_stats. cbn [py_in py_getitem].
  rewrite has_key_lookup, Hfiles. cbn [py_in py_getitem].
  rewrite has_key_lookup, Hentry. cbn [py_get]. subst field. cbv beta.
  destruct (lookup (b "complete") st), (lookup (b "incomplete") st),
    (lookup (b "downloaded") st); eexists; reflexivity.
Qed.

End Lookups.


Lemma counters_default_to_zero_witness :
  exists out,
    scrape_http_tracker
      (fun _ _ => Response 200 (b "d5:filesd1:Ad8:completei5eeee"))
      (fun _ =>
         Some (Dictionary
                 [(b "files", Dictionary [(b "A", Dictionary [(b "complete", Integer 5)])])]))
      (s "http://tracker.example/announce") (s "41")
    = Returns out
        (Some {| seeders := Integer 5; leechers := Integer 0;
                 downloads := Integer 0 |}).
Proof.
  exact (counters_default_to_zero
           (fun _ _ => Response 200 (b "d5:filesd1:Ad8:completei5eeee"))
           (fun _ =>
              Some (Dictionary
                      [(b "files",
                        Dictionary [(b "A", Dictionary [(b "complete", Integer 5)])])]))
           (s "http://tracker.example/announce") (s "41")
           (b "A") (b "d5:filesd1:Ad8:completei5eeee")
           [(b "files", Dictionary [(b "A", Dictionary [(b "complete", Integer 5)])])]
           [(b "A", Dictionary [(b "complete", Integer 5)])]
           [(b "complete", Integer 5)]
           eq_refl eq_refl eq_refl eq_refl eq_refl).
Defined.

End ManualScrapeBetterFacts.

(* ================================================================= *)
(** * Decimal numbers on the wire *)

Module DecimalFacts.
Import Py Bencode Codec.

Lemma small_cases (k : N) :
  (k < 10)%N ->
  k = 0%N \/ k = 1%N \/ k = 2%N \/ k = 3%N \/ k = 4%N \/ k = 5%N \/
  k = 6%N \/ k = 7%N \/ k = 8%N \/ k = 9%N.
Proof. lia. Qed.

Ltac each_digit H :=
  apply small_cases in H;
  repeat (destruct H as [H|H]; [subst; try reflexivity|]); subst; try reflexivity.

Lemma is_digit_digit_byte (k : N) : (k < 10)%N -> is_digit (digit_byte k) = true.
Proof. intros H. each_digit H. Qed.

Lemma digit_value_digit_byte (k : N) : (k < 10)%N -> digit_value (digit_byte k) = k.
Proof. intros H. each_digit H. Qed.

Lemma digit_byte_zero (k : N) :
  (k < 10)%N -> k <> 0%N -> is_byte (digit_byte k) "0" = false.
Proof. intros H Hk. each_digit H. congruence. Qed.

(** A digit is none of the bytes that open, close or separate. *)
Lemma digit_not_punct (c : byte) :
  is_digit c = true ->
  is_byte c "-" = false /\ is_byte c "e" = false /\ is_byte c "i" = false /\
  is_byte c ":" = false.
Proof. destruct c; intros H; try discriminate H; repeat split. Qed.

Lemma digits_from_app (fuel : nat) (n : N) (acc : bytes) :
  digits_from fuel n acc = digits_from fuel n [] ++ acc.
Proof.
  revert n acc. induction fuel as [|fuel IH]; intros n acc; [reflexivity|].
  cbn [digits_from]. destruct (n <? 10)%N; [reflexivity|].
  rewrite IH, (IH _ [_]), <- app_assoc. reflexivity.
Qed.

Lemma digits_from_step (fuel : nat) (n : N) :
  digits_from (S fuel) n [] =
    if (n <? 10)%N then [digit_byte (n mod 10)]
    else digits_from fuel (n / 10) [] ++ [digit_byte (n mod 10)].
Proof.
  cbn [digits_from]. destruct (n <? 10)%N; [reflexivity|]. apply digits_from_app.
Qed.

Lemma mod10_lt (n : N) : (n mod 10 < 10)%N.
Proof. apply N.mod_lt. discriminate. Qed.

Lemma digits_all_digits (fuel : nat) (n : N) :
  forallb is_digit (digits_from fuel n []) = true.
Proof.
  revert n. induction fuel as [|fuel IH]; intros n; [reflexivity|].
  rewrite digits_from_step. destruct (n <? 10)%N.
  - cbn [forallb]. now rewrite is_digit_digit_byte by apply mod10_lt.
  - rewrite forallb_app, IH. cbn [forallb].
    now rewrite is_digit_digit_byte by apply mod10_lt.
Qed.

Lemma int_of_digits_snoc (ds : bytes) (d : byte) :
  int_of_digits (ds ++ [d]) = (10 * int_of_digits ds + digit_value d)%N.
Proof. unfold int_of_digits. now rewrite fold_left_app. Qed.

Lemma digits_value (fuel : nat) (n : N) :
  (n < 10 ^ N.of_nat fuel)%N -> int_of_digits (digits_from fuel n []) = n.
Proof.
  revert n. induction fuel as [|fuel IH]; intros n Hn.
  - cbn in Hn. cbn. lia.
  - rewrite digits_from_step. destruct (n <? 10)%N eqn:E.
    + apply N.ltb_lt in E. rewrite N.mod_small by exact E.
      unfold int_of_digits. cbn [fold_left].
      rewrite digit_value_digit_byte by exact E. lia.
    + apply N.ltb_ge in E.
      rewrite int_of_digits_snoc, digit_value_digit_byte by apply mod10_lt.
      rewrite IH.
      * pose proof (N.div_mod n 10). lia.
      * rewrite Nat2N.inj_succ, N.pow_succ_r' in Hn.
        apply N.Div0.div_lt_upper_bound. exact Hn.
Qed.

(** The first digit is not a zero, unless the number is zero. *)
Lemma digits_head (fuel : nat) (n : N) :
  n <> 0%N ->
  (n < 10 ^ N.of_nat fuel)%N ->
  exists c ds, digits_from fuel n [] = c :: ds /\ is_byte c "0" = false.
Proof.
  revert n. induction fuel as [|fuel IH]; intros n Hn Hlt.
  - cbn in Hlt. lia.
  - rewrite digits_from_step. destruct (n <? 10)%N eqn:E.
    + apply N.ltb_lt in E. rewrite N.mod_small by exact E.
      eexists _, _. split; [reflexivity|]. now apply digit_byte_zero.
    + apply N.ltb_ge in E.
      destruct (IH (n / 10)%N) as (c & ds & Hds & Hc).
      * intros H0. apply N.div_small_iff in H0; lia.
      * rewrite Nat2N.inj_succ, N.pow_succ_r' in Hlt.
        apply N.Div0.div_lt_upper_bound. exact Hlt.
      * rewrite Hds. eexists _, _. split; [reflexivity | exact Hc].
Qed.

Lemma decimal_fuel (n : N) : (n < 10 ^ N.of_nat (S (N.to_nat (N.log2 n))))%N.
Proof.
  rewrite Nat2N.inj_succ, N2Nat.id.
  destruct (N.eq_dec n 0) as [->|Hn]; [reflexivity|].
  apply N.lt_le_trans with (2 ^ N.succ (N.log2 n))%N.
  - apply N.log2_spec. lia.
  - apply N.pow_le_mono_l. lia.
Qed.

Lemma decimal_digits (n : N) : forallb is_digit (decimal n) = true.
Proof. apply digits_all_digits. Qed.

Lemma decimal_value (n : N) : int_of_digits (decimal n) = n.
Proof. apply digits_value, decimal_fuel. Qed.

Lemma decimal_head (n : N) :
  exists c ds, decimal n = c :: ds /\ is_digit c = true /\
               leading_zero (c :: ds) = false.
Proof.
  pose proof (decimal_digits n) as Hd.
  destruct (N.eq_dec n 0) as [->|Hn].
  - now exists "0"%byte, [].
  - destruct (digits_head _ n Hn (decimal_fuel n)) as (c & ds & Hds & Hc).
    fold (decimal n) in Hds. rewrite Hds in Hd. cbn [forallb] in Hd.
    apply andb_true_iff in Hd as [Hd _].
    exists c, ds. split; [exact Hds|]. split; [exact Hd|].
    cbn [leading_zero]. now destruct ds.
Qed.

(** The digits of a number are read back whole when no digit follows. *)
Lemma span_digits_app (ds rest : bytes) :
  forallb is_digit ds = true ->
  match rest with
  | [] => True
  | c :: _ => is_digit c = false
  end ->
  span_digits (ds ++ rest) = (ds, rest).
Proof.
  intros Hds Hrest. induction ds as [|d ds IH].
  - destruct rest as [|c rest]; [reflexivity|]. cbn. now rewrite Hrest.
  - cbn [forallb] in Hds. apply andb_true_iff in Hds as [Hd Hds].
    cbn [app span_digits]. now rewrite Hd, (IH Hds).
Qed.

(** Reading back the decimal form of a number, up to a byte that is not a
    digit. *)
Lemma span_decimal (n : N) (c : byte) (rest : bytes) :
  is_digit c = false ->
  span_digits (decimal n ++ c :: rest) = (decimal n, c :: rest).
Proof. intros Hc. apply span_digits_app; [apply decimal_digits | exact Hc]. Qed.

Lemma decode_bytes_encode (x rest : bytes) :
  decode_bytes (encode_bytes x ++ rest) = Parsed x rest.
Proof.
  unfold decode_bytes, encode_bytes.
  change (b ":") with [":"%byte].
  rewrite <- !app_assoc. cbn [app].
  rewrite span_decimal by reflexivity.
  destruct (decimal_head (N.of_nat (List.length x))) as (c & ds & Hds & _ & Hz).
  rewrite decimal_value. rewrite Hds at 1. rewrite Hds at 1. rewrite Hz.
  change (is_byte ":"%byte ":") with true. cbv iota.
  rewrite Nat2N.id.
  replace (List.length (x ++ rest) <? List.length x)%nat with false.
  - now rewrite firstn_app, Nat.sub_diag, firstn_all, skipn_app, Nat.sub_diag,
      skipn_all, app_nil_r.
  - symmetry. apply Nat.ltb_ge. rewrite length_app. lia.
Qed.

Lemma decode_integer_encode (z : Z) (rest : bytes) :
  exists t, encode_integer z = "i"%byte :: t /\
            decode_integer (t ++ rest) = Parsed (Integer z) rest.
Proof.
  unfold encode_integer.
  change (b "i") with ["i"%byte]. change (b "e") with ["e"%byte].
  change (b "-") with ["-"%byte]. cbn [app].
  eexists. split; [reflexivity|].
  rewrite <- !app_assoc. cbn [app].
  destruct (decimal_head (Z.abs_N z)) as (c & ds & Hds & Hc & Hz).
  unfold decode_integer.
  destruct (z <? 0)%Z eqn:Hneg.
  - cbn [app]. change (is_byte "-"%byte "-") with true. cbv iota.
    rewrite span_decimal by reflexivity.
    rewrite decimal_value. rewrite Hds at 1. rewrite Hds at 1. rewrite Hz.
    apply Z.ltb_lt in Hneg.
    replace (Z.abs_N z =? 0)%N with false by (symmetry; apply N.eqb_neq; lia).
    cbn [andb]. change (is_byte "e"%byte "e") with true. cbv iota.
    do 2 f_equal. lia.
  - cbn [app]. rewrite Hds at 1. cbn [app].
    destruct (digit_not_punct c Hc) as (Hm & _). rewrite Hm.
    rewrite span_decimal by reflexivity.
    rewrite decimal_value. rewrite Hds at 1. rewrite Hds at 1. rewrite Hz.
    cbn [andb]. change (is_byte "e"%byte "e") with true. cbv iota.
    apply Z.ltb_ge in Hneg. do 2 f_equal. lia.
Qed.

End DecimalFacts.


(* ================================================================= *)
(** * Keys and their order *)

Module KeyFacts.
Import Py Bencode Codec.

Lemma byte_eqb_eq (x y : byte) : byte_eqb x y = true -> x = y.
Proof. apply Byte.byte_dec_bl. Qed.

Lemma bytes_eqb_eq (x y : bytes) : bytes_eqb x y = true -> x = y.
Proof.
  revert y. induction x as [|c x IH]; intros [|d y]; simpl; try easy.
  intros H. apply andb_true_iff in H as [Hc Hx].
  apply byte_eqb_eq in Hc. subst d. f_equal. now apply IH.
Qed.

Lemma bytes_eqb_refl (x : bytes) : bytes_eqb x x = true.
Proof.
  induction x as [|c x IH]; [reflexivity|]. simpl.
  unfold byte_eqb. now rewrite Byte.byte_dec_lb.
Qed.

Lemma to_N_inj (x y : byte) : Byte.to_N x = Byte.to_N y -> x = y.
Proof.
  intros H. pose proof (Byte.of_to_N x) as Hx.
  rewrite H, Byte.of_to_N in Hx. congruence.
Qed.

Lemma bytes_ltb_irrefl (x : bytes) : bytes_ltb x x = false.
Proof.
  induction x as [|c x IH]; [reflexivity|]. simpl.
  now rewrite N.compare_refl.
Qed.

Lemma bytes_ltb_trans (x y z : bytes) :
  bytes_ltb x y = true -> bytes_ltb y z = true -> bytes_ltb x z = true.
Proof.
  revert y z. induction x as [|a x IH]; intros [|c y] [|d z]; simpl; try easy.
  destruct (N.compare_spec (Byte.to_N a) (Byte.to_N c)) as [E1|E1|E1];
    destruct (N.compare_spec (Byte.to_N c) (Byte.to_N d)) as [E2|E2|E2];
    destruct (N.compare_spec (Byte.to_N a) (Byte.to_N d)) as [E3|E3|E3];
    try easy; try lia.
  apply IH.
Qed.

Lemma bytes_ltb_asym (x y : bytes) :
  bytes_ltb x y = true -> bytes_ltb y x = false.
Proof.
  intros H. destruct (bytes_ltb y x) eqn:E; [|reflexivity].
  pose proof (bytes_ltb_trans _ _ _ H E) as Hxx.
  now rewrite bytes_ltb_irrefl in Hxx.
Qed.

Lemma bytes_ltb_neq (x y : bytes) :
  bytes_ltb x y = true -> bytes_eqb x y = false.
Proof.
  intros H. destruct (bytes_eqb x y) eqn:E; [|reflexivity].
  apply bytes_eqb_eq in E. subst y. now rewrite bytes_ltb_irrefl in H.
Qed.

(** Two keys neither of which is below the other are the same key. *)
Lemma bytes_ltb_total (x y : bytes) :
  bytes_ltb x y = false -> bytes_ltb y x = false -> x = y.
Proof.
  revert y. induction x as [|a x IH]; intros [|c y]; simpl; try easy.
  rewrite (N.compare_antisym (Byte.to_N a) (Byte.to_N c)).
  destruct (N.compare_spec (Byte.to_N a) (Byte.to_N c)) as [E|E|E];
    cbn [CompOpp]; try easy.
  intros H1 H2. apply to_N_inj in E. subst c. f_equal. now apply IH.
Qed.

Lemma existsb_key (k : bytes) (ks : list bytes) :
  existsb (bytes_eqb k) ks = true <-> In k ks.
Proof.
  rewrite existsb_exists. split.
  - intros (x & Hx & E). apply bytes_eqb_eq in E. now subst x.
  - intros H. exists k. split; [exact H | apply bytes_eqb_refl].
Qed.

(** In an increasing list every later key is above an earlier one. *)
Lemma keys_increasing_cons (k : bytes) (ks : list bytes) :
  keys_increasing (k :: ks) = true <->
  keys_increasing ks = true /\ Forall (fun k' => bytes_ltb k k' = true) ks.
Proof.
  split.
  - revert k. induction ks as [|k' ks IH]; intros k H; [split; constructor|].
    cbn [keys_increasing] in H. apply andb_true_iff in H as [Hk H].
    split; [exact H|].
    constructor; [exact Hk|].
    destruct (IH k' H) as [_ Hall].
    eapply Forall_impl; [|exact Hall].
    intros a Ha. cbv beta in *. eapply bytes_ltb_trans; eassumption.
  - intros [Hinc Hall]. destruct ks as [|k' ks]; [reflexivity|].
    cbn [keys_increasing]. inversion Hall as [|? ? Hk _]; subst.
    now rewrite Hk.
Qed.

Lemma keys_increasing_before (l1 : list bytes) (k : bytes) (l2 : list bytes) :
  keys_increasing (l1 ++ k :: l2) = true ->
  Forall (fun k' => bytes_ltb k' k = true) l1.
Proof.
  induction l1 as [|a l1 IH]; intros H; [constructor|].
  cbn [app] in H. apply keys_increasing_cons in H as [Hinc Hall].
  constructor; [|now apply IH].
  rewrite Forall_forall in Hall. apply Hall, in_or_app. right. now left.
Qed.

Lemma keys_increasing_unique (ks : list bytes) :
  keys_increasing ks = true -> keys_unique ks = true.
Proof.
  induction ks as [|k ks IH]; [reflexivity|]. intros H.
  apply keys_increasing_cons in H as [Hinc Hall].
  cbn [keys_unique]. rewrite (IH Hinc), andb_true_r. apply negb_true_iff.
  destruct (existsb (bytes_eqb k) ks) eqn:E; [|reflexivity].
  apply existsb_key in E. rewrite Forall_forall in Hall.
  specialize (Hall k E). now rewrite bytes_ltb_irrefl in Hall.
Qed.

Lemma has_key_above {A} (k : bytes) (d : list (bytes * A)) :
  Forall (fun k' => bytes_ltb k' k = true) (map fst d) -> has_key k d = false.
Proof.
  unfold has_key. induction d as [|[k' v] d IH]; intros H; [reflexivity|].
  cbn [map fst] in H. inversion H as [|? ? Hk Hd]; subst.
  cbn [existsb fst]. now rewrite (bytes_ltb_neq _ _ Hk), IH.
Qed.

Lemma dict_insert_above {A} (k : bytes) (v : A) (d : list (bytes * A)) :
  Forall (fun k' => bytes_ltb k' k = true) (map fst d) ->
  dict_insert k v d = d ++ [(k, v)].
Proof.
  induction d as [|[k' v'] d IH]; intros H; [reflexivity|].
  cbn [map fst] in H. inversion H as [|? ? Hk Hd]; subst.
  cbn [dict_insert app]. now rewrite (bytes_ltb_asym _ _ Hk), IH.
Qed.

Lemma dict_insert_in {A} (k : bytes) (v : A) (d : list (bytes * A)) kv :
  In kv (dict_insert k v d) <-> kv = (k, v) \/ In kv d.
Proof.
  induction d as [|[k' v'] d IH]; cbn [dict_insert].
  - cbn. intuition congruence.
  - destruct (bytes_ltb k k'); cbn [In]; [intuition congruence|].
    rewrite IH. intuition congruence.
Qed.

Lemma dict_insert_map {A B} (f : A -> B) (k : bytes) (v : A) (d : list (bytes * A)) :
  dict_insert k (f v) (map (fun kv => (fst kv, f (snd kv))) d)
  = map (fun kv => (fst kv, f (snd kv))) (dict_insert k v d).
Proof.
  induction d as [|[k' v'] d IH]; [reflexivity|].
  cbn [map dict_insert fst snd]. destruct (bytes_ltb k k'); [reflexivity|].
  cbn [map fst snd]. now rewrite IH.
Qed.

Lemma dict_insert_increasing {A} (k : bytes) (v : A) (d : list (bytes * A)) :
  keys_increasing (map fst d) = true ->
  existsb (bytes_eqb k) (map fst d) = false ->
  keys_increasing (map fst (dict_insert k v d)) = true.
Proof.
  induction d as [|[k' v'] d IH]; intros Hinc Hnew; [reflexivity|].
  cbn [map fst existsb] in Hinc, Hnew. apply orb_false_iff in Hnew as [Hkk' Hnew].
  cbn [dict_insert]. destruct (bytes_ltb k k') eqn:E.
  - cbn [map fst keys_increasing]. now rewrite E.
  - cbn [map fst]. pose proof Hinc as Hinc'.
    apply keys_increasing_cons in Hinc as [Hinc Hall].
    apply keys_increasing_cons. split; [now apply IH|].
    rewrite Forall_forall in *. intros x Hx.
    apply in_map_iff in Hx as (kv & <- & Hkv).
    apply dict_insert_in in Hkv as [->|Hkv].
    + cbn [fst]. destruct (bytes_ltb k' k) eqn:E'; [reflexivity|].
      pose proof (bytes_ltb_total _ _ E E') as ->.
      now rewrite bytes_eqb_refl in Hkk'.
    + apply Hall. now apply in_map.
Qed.

Lemma sort_entries_in {A} (d : list (bytes * A)) kv :
  In kv (sort_entries d) <-> In kv d.
Proof.
  unfold sort_entries. induction d as [|[k v] d IH]; [reflexivity|].
  cbn [fold_right fst snd In]. rewrite dict_insert_in, IH. intuition congruence.
Qed.

Lemma sort_entries_map {A B} (f : A -> B) (d : list (bytes * A)) :
  sort_entries (map (fun kv => (fst kv, f (snd kv))) d)
  = map (fun kv => (fst kv, f (snd kv))) (sort_entries d).
Proof.
  unfold sort_entries. induction d as [|[k v] d IH]; [reflexivity|].
  cbn [map fold_right fst snd]. now rewrite IH, dict_insert_map.
Qed.

(** Sorting entries with unique keys puts the keys in increasing order. *)
Lemma sort_entries_increasing {A} (d : list (bytes * A)) :
  keys_unique (map fst d) = true ->
  keys_increasing (map fst (sort_entries d)) = true.
Proof.
  induction d as [|[k v] d IH]; intros H; [reflexivity|].
  cbn [map fst keys_unique] in H. apply andb_true_iff in H as [Hk H].
  change (sort_entries ((k, v) :: d)) with (dict_insert k v (sort_entries d)).
  apply dict_insert_increasing; [now apply IH|].
  apply negb_true_iff in Hk.
  destruct (existsb (bytes_eqb k) (map fst (sort_entries d))) eqn:E; [|reflexivity].
  apply existsb_key, in_map_iff in E as (kv & Hfst & Hin).
  apply (proj1 (sort_entries_in _ _)) in Hin.
  assert (In k (map fst d)) as Hin' by (rewrite <- Hfst; now apply in_map).
  apply existsb_key in Hin'. congruence.
Qed.

(** Sorting leaves entries alone that are in key order already. *)
Lemma sort_entries_sorted {A} (d : list (bytes * A)) :
  keys_increasing (map fst d) = true -> sort_entries d = d.
Proof.
  unfold sort_entries. induction d as [|[k v] d IH]; intros H; [reflexivity|].
  cbn [fold_right fst snd]. cbn [map fst] in H.
  apply keys_increasing_cons in H as [Hinc Hall].
  rewrite (IH Hinc). destruct d as [|[k' v'] d]; [reflexivity|].
  cbn [map fst] in Hall. inversion Hall as [|? ? Hk _]; subst.
  cbn [dict_insert]. now rewrite Hk.
Qed.

End KeyFacts.

(* ================================================================= *)
(** * Decoding what the encoder wrote *)

Module CodecFacts.
Import Py Bencode Codec DecimalFacts KeyFacts.

(** Induction on value trees, with the hypothesis for every member of a
    container. *)
Lemma value_tree_ind (P : value -> Prop) :
  (forall z, P (Integer z)) ->
  (forall x, P (ByteString x)) ->
  (forall items, Forall P items -> P (List items)) ->
  (forall entries, Forall (fun kv => P (snd kv)) entries -> P (Dictionary entries)) ->
  forall v, P v.
Proof.
  intros Hz Hx Hl Hd. fix IH 1. intros [z|x|items|entries].
  - apply Hz.
  - apply Hx.
  - apply Hl. induction items as [|v items IHitems]; constructor;
      [apply IH | exact IHitems].
  - apply Hd. induction entries as [|[k v] entries IHentries]; constructor;
      [apply IH | exact IHentries].
Qed.

Lemma encode_list (items : list value) :
  encode (List items) = "l"%byte :: flat_map encode items ++ ["e"%byte].
Proof. reflexivity. Qed.

Lemma flat_map_encoded (entries : list (bytes * value)) :
  flat_map (fun kx => encode_bytes (fst kx) ++ snd kx)
    (map (fun kv => (fst kv, encode (snd kv))) entries)
  = flat_map encode_entry entries.
Proof.
  induction entries as [|kv entries IH]; [reflexivity|].
  cbn [map flat_map fst snd]. now rewrite IH.
Qed.

(** The encoder writes the entries in key order. *)
Lemma encode_dictionary (entries : list (bytes * value)) :
  encode (Dictionary entries)
  = "d"%byte :: flat_map encode_entry (sort_entries entries) ++ ["e"%byte].
Proof.
  cbn [encode]. now rewrite (sort_entries_map encode), flat_map_encoded.
Qed.

(** The decoder, production by production. *)
Lemma decode_value_integer strict d (t : bytes) :
  decode_value strict d ("i"%byte :: t) = decode_integer t.
Proof. destruct d; reflexivity. Qed.

Lemma decode_value_bytes strict d (c : byte) (t : bytes) :
  is_digit c = true ->
  decode_value strict d (c :: t)
  = match decode_bytes (c :: t) with
    | Parsed x rest => Parsed (ByteString x) rest
    | Failed k n => Failed k n
    end.
Proof.
  intros Hc. destruct (digit_not_punct c Hc) as (_ & _ & Hi & _).
  destruct d; cbn [decode_value]; now rewrite Hi, Hc.
Qed.

Lemma decode_value_list strict d (r : bytes) :
  decode_value strict d ("l"%byte :: r)
  = match d with
    | O => Failed Structure (S (List.length r))
    | S d' =>
        match decode_items (decode_value strict d') (List.length r) r with
        | Parsed vs rest => Parsed (List vs) rest
        | Failed k n => Failed k n
        end
    end.
Proof. destruct d; reflexivity. Qed.

Lemma decode_value_dictionary strict d (r : bytes) :
  decode_value strict d ("d"%byte :: r)
  = match d with
    | O => Failed Structure (S (List.length r))
    | S d' =>
        match decode_pairs strict (decode_value strict d') (List.length r) None [] r with
        | Parsed es rest => Parsed (Dictionary es) rest
        | Failed k n => Failed k n
        end
    end.
Proof. destruct d; reflexivity. Qed.

(** No encoded value starts with the closing [e]. *)
Lemma encode_head (v : value) :
  exists c t, encode v = c :: t /\ is_byte c "e" = false.
Proof.
  destruct v as [z|x|items|entries].
  - destruct (decode_integer_encode z []) as (t & Ht & _).
    exists "i"%byte, t. now split.
  - cbn [encode]. unfold encode_bytes.
    destruct (decimal_head (N.of_nat (List.length x))) as (c & ds & Hds & Hc & _).
    rewrite Hds. cbn [app]. eexists _, _. split; [reflexivity|].
    now destruct (digit_not_punct c Hc) as (_ & He & _).
  - now eexists _, _.
  - now eexists _, _.
Qed.

Lemma encode_bytes_head (x : bytes) :
  exists c t, encode_bytes x = c :: t /\ is_byte c "e" = false.
Proof. exact (encode_head (ByteString x)). Qed.

Lemma entries_depth_le (entries : list (bytes * value)) (n : nat) :
  entries_depth entries <= n <-> Forall (fun kv => depth (snd kv) <= n) entries.
Proof.
  induction entries as [|kv entries IH]; cbn [entries_depth fold_right].
  - split; [constructor | lia].
  - fold (entries_depth entries). rewrite Forall_cons_iff, <- IH. lia.
Qed.

Lemma entries_depth_sort (entries : list (bytes * value)) :
  entries_depth (sort_entries entries) = entries_depth entries.
Proof.
  assert (H : forall n, entries_depth (sort_entries entries) <= n
                        <-> entries_depth entries <= n).
  { intros n. rewrite !entries_depth_le, !Forall_forall.
    split; intros H kv Hkv; apply H; now apply sort_entries_in. }
  apply Nat.le_antisymm; apply H; constructor.
Qed.

Lemma decode_items_encoded (dec : bytes -> parse value) (d : nat)
    (items : list value) :
  Forall (decodes_at dec d) items ->
  forall fuel rest,
    List.length items <= fuel ->
    (items_depth items <= d ->
     decode_items dec fuel (flat_map encode items ++ "e"%byte :: rest)
     = Parsed (map canon items) rest) /\
    (d < items_depth items ->
     exists n,
       decode_items dec fuel (flat_map encode items ++ "e"%byte :: rest)
       = Failed Structure n).
Proof.
  induction 1 as [|v items Hv _ IH]; intros fuel rest Hfuel.
  - split; [|cbn; lia]. intros _. cbn [flat_map app]. now destruct fuel.
  - destruct fuel as [|fuel]; [cbn in Hfuel; lia|].
    cbn [flat_map items_depth fold_right map]. fold (items_depth items).
    rewrite <- app_assoc.
    destruct (encode_head v) as (c & t & Henc & Hc).
    destruct (Hv (flat_map encode items ++ "e"%byte :: rest)) as [Hfit Hdeep].
    destruct (IH fuel rest) as [IHfit IHdeep]; [cbn in Hfuel; lia|].
    assert (Hstep : forall X,
      decode_items dec (S fuel) (encode v ++ X)
      = match dec (encode v ++ X) with
        | Failed k n => Failed k n
        | Parsed v' rest' =>
            match decode_items dec fuel rest' with
            | Failed k n => Failed k n
            | Parsed vs rest'' => Parsed (v' :: vs) rest''
            end
        end).
    { intros X. rewrite Henc. cbn [app decode_items]. now rewrite Hc. }
    rewrite Hstep. split.
    + intros Hd. rewrite Hfit by lia. now rewrite IHfit by lia.
    + intros Hd. destruct (Nat.le_gt_cases (depth v) d) as [Hv'|Hv'].
      * rewrite Hfit by exact Hv'.
        destruct IHdeep as (n & Hn); [lia|]. rewrite Hn. now exists n.
      * destruct (Hdeep Hv') as (n & Hn). rewrite Hn. now exists n.
Qed.

Lemma decode_pairs_encoded strict (dec : bytes -> parse value) (d : nat)
    (entries : list (bytes * value)) :
  Forall (fun kv => decodes_at dec d (snd kv)) entries ->
  forall fuel prev acc rest,
    List.length entries <= fuel ->
    keys_increasing (map fst acc ++ map fst entries) = true ->
    (forall p, prev = Some p -> In p (map fst acc)) ->
    (entries_depth entries <= d ->
     decode_pairs strict dec fuel prev acc
       (flat_map encode_entry entries ++ "e"%byte :: rest)
     = Parsed (acc ++ map canon_entry entries) rest) /\
    (d < entries_depth entries ->
     exists n,
       decode_pairs strict dec fuel prev acc
         (flat_map encode_entry entries ++ "e"%byte :: rest)
       = Failed Structure n).
Proof.
  induction 1 as [|[k v] entries Hv _ IH]; intros fuel prev acc rest Hfuel Hinc Hprev.
  - split; [|cbn; lia]. intros _. cbn [flat_map app map].
    destruct fuel; cbn; now rewrite app_nil_r.
  - destruct fuel as [|fuel]; [cbn in Hfuel; lia|].
    cbn [flat_map entries_depth fold_right snd map]. fold (entries_depth entries).
    unfold encode_entry at 1 3. unfold canon_entry at 1. cbn [fst snd].
    rewrite <- !app_assoc. cbn [snd] in Hv.
    destruct (encode_bytes_head k) as (c & t & Henc & Hc).
    destruct (Hv (flat_map encode_entry entries ++ "e"%byte :: rest)) as [Hfit Hdeep].
    cbn [map fst] in Hinc.
    assert (Hbelow : Forall (fun k' => bytes_ltb k' k = true) (map fst acc))
      by now apply keys_increasing_before in Hinc.
    assert (Hstrict : strict && match prev with
                                | Some p => bytes_ltb k p
                                | None => false
                                end = false).
    { destruct prev as [p|]; [|apply andb_false_r].
      rewrite Forall_forall in Hbelow.
      now rewrite (bytes_ltb_asym _ _ (Hbelow p (Hprev p eq_refl))), andb_false_r. }
    destruct (IH fuel (Some k) (acc ++ [(k, canon v)]) rest) as [IHfit IHdeep].
    { cbn in Hfuel. lia. }
    { rewrite map_app, <- app_assoc. exact Hinc. }
    { intros p [= <-]. rewrite map_app. apply in_or_app. right. now left. }
    assert (Hstep : forall X,
      decode_pairs strict dec (S fuel) prev acc (encode_bytes k ++ encode v ++ X)
      = match dec (encode v ++ X) with
        | Failed k' n => Failed k' n
        | Parsed v' rest' =>
            decode_pairs strict dec fuel (Some k) (dict_insert k v' acc) rest'
        end).
    { intros X. pose proof (decode_bytes_encode k (encode v ++ X)) as Hk.
      rewrite Henc in *. cbn [app decode_pairs] in *. rewrite Hc, Hk.
      now rewrite (has_key_above _ _ Hbelow), Hstrict. }
    rewrite Hstep. split.
    + intros Hd. rewrite Hfit by lia.
      rewrite (dict_insert_above _ _ _ Hbelow), IHfit by lia.
      now rewrite <- app_assoc.
    + intros Hd. destruct (Nat.le_gt_cases (depth v) d) as [Hv'|Hv'].
      * rewrite Hfit by exact Hv'. rewrite (dict_insert_above _ _ _ Hbelow).
        destruct IHdeep as (n & Hn); [lia|]. now exists n.
      * destruct (Hdeep Hv') as (n & Hn). rewrite Hn. now exists n.
Qed.

Lemma flat_map_length_items (items : list value) :
  List.length items <= List.length (flat_map encode items).
Proof.
  induction items as [|v items IH]; [constructor|].
  cbn [flat_map]. rewrite length_app.
  destruct (encode_head v) as (c & t & -> & _). cbn. lia.
Qed.

Lemma flat_map_length_entries (entries : list (bytes * value)) :
  List.length entries <= List.length (flat_map encode_entry entries).
Proof.
  induction entries as [|kv entries IH]; [constructor|].
  cbn [flat_map]. unfold encode_entry at 1. rewrite !length_app.
  destruct (encode_head (snd kv)) as (c & t & -> & _). cbn. lia.
Qed.

(** The decoder on the encoder's output, at any depth budget. *)
Lemma decode_value_encode strict (v : value) :
  unique_keys v = true -> forall d, decodes_at (decode_value strict d) d v.
Proof.
  induction v as [z|x|items IH|entries IH] using value_tree_ind;
    intros Huniq d rest.
  - split; [|cbn; lia]. intros _.
    destruct (decode_integer_encode z rest) as (t & Ht & Hdec).
    cbn [encode canon]. rewrite Ht. cbn [app]. now rewrite decode_value_integer.
  - split; [|cbn; lia]. intros _.
    pose proof (decode_bytes_encode x rest) as Hdec.
    cbn [encode canon]. unfold encode_bytes in *.
    destruct (decimal_head (N.of_nat (List.length x))) as (c & ds & Hds & Hc & _).
    rewrite Hds in *. cbn [app] in *.
    now rewrite decode_value_bytes, Hdec by exact Hc.
  - cbn [unique_keys] in Huniq. rewrite forallb_forall in Huniq.
    rewrite encode_list. cbn [app]. rewrite <- app_assoc. cbn [app].
    rewrite decode_value_list. cbn [depth canon]. fold (items_depth items).
    destruct d as [|d]; [split; [lia | intros _; eauto]|].
    assert (Hitems : Forall (decodes_at (decode_value strict d) d) items).
    { rewrite Forall_forall in *. intros v Hv. now apply IH, Huniq. }
    destruct (decode_items_encoded _ d items Hitems
                (List.length (flat_map encode items ++ "e"%byte :: rest)) rest)
      as [Hfit Hdeep].
    { rewrite length_app. pose proof (flat_map_length_items items). lia. }
    split; intros Hd.
    + now rewrite Hfit by lia.
    + destruct Hdeep as (n & Hn); [lia|]. rewrite Hn. now exists n.
  - cbn [unique_keys] in Huniq. apply andb_true_iff in Huniq as [Hkeys Huniq].
    rewrite forallb_forall in Huniq.
    rewrite encode_dictionary. cbn [app]. rewrite <- app_assoc. cbn [app].
    rewrite decode_value_dictionary. cbn [depth canon].
    fold (entries_depth entries). rewrite <- (entries_depth_sort entries).
    fold canon_entry. unfold canon_entry at 1. rewrite (sort_entries_map canon).
    fold canon_entry.
    destruct d as [|d]; [split; [lia | intros _; eauto]|].
    assert (Hentries :
      Forall (fun kv => decodes_at (decode_value strict d) d (snd kv))
        (sort_entries entries)).
    { rewrite Forall_forall in *. intros kv Hkv.
      apply (proj1 (sort_entries_in _ _)) in Hkv. now apply IH, Huniq. }
    destruct (decode_pairs_encoded strict _ d _ Hentries
                (List.length (flat_map encode_entry (sort_entries entries)
                              ++ "e"%byte :: rest))
                None [] rest) as [Hfit Hdeep].
    { rewrite length_app.
      pose proof (flat_map_length_entries (sort_entries entries)). lia. }
    { now apply sort_entries_increasing. }
    { discriminate. }
    split; intros Hd.
    + now rewrite Hfit by lia.
    + destruct Hdeep as (n & Hn); [lia|]. rewrite Hn. now exists n.
Qed.

(** A tree whose entries are in key order is its own canonical form. *)
Lemma canon_well_formed (v : value) : well_formed v = true -> canon v = v.
Proof.
  induction v as [z|x|items IH|entries IH] using value_tree_ind; intros Hwf;
    try reflexivity.
  - cbn [well_formed] in Hwf. rewrite forallb_forall in Hwf.
    cbn [canon]. f_equal. rewrite <- (map_id items) at 2.
    apply map_ext_in. intros v Hv. rewrite Forall_forall in IH. now apply IH, Hwf.
  - cbn [well_formed] in Hwf. apply andb_true_iff in Hwf as [Hinc Hwf].
    rewrite forallb_forall in Hwf. cbn [canon]. f_equal.
    rewrite (sort_entries_map canon), (sort_entries_sorted _ Hinc).
    rewrite <- (map_id entries) at 2.
    apply map_ext_in. intros [k v] Hv. rewrite Forall_forall in IH. cbn [fst snd].
    f_equal. now apply (IH _ Hv), (Hwf _ Hv).
Qed.

Lemma well_formed_unique_keys (v : value) :
  well_formed v = true -> unique_keys v = true.
Proof.
  induction v as [z|x|items IH|entries IH] using value_tree_ind; intros Hwf;
    try reflexivity.
  - cbn [well_formed unique_keys] in *. rewrite forallb_forall in *.
    rewrite Forall_forall in IH. intros v Hv. now apply IH, Hwf.
  - cbn [well_formed unique_keys] in *. apply andb_true_iff in Hwf as [Hinc Hwf].
    rewrite (keys_increasing_unique _ Hinc). cbn [andb].
    rewrite forallb_forall in *. rewrite Forall_forall in IH.
    intros kv Hkv. now apply (IH _ Hkv), Hwf.
Qed.

End CodecFacts.

(* ================================================================= *)
(** * The loops of the decoder never run out of fuel *)

Module FuelFacts.
Import Py Bencode Codec.

Lemma span_digits_length (l : bytes) :
  List.length (snd (span_digits l)) <= List.length l.
Proof.
  induction l as [|c l IH]; [constructor|].
  cbn [span_digits]. destruct (is_digit c); [|constructor].
  destruct (span_digits l) as [ds rest]. cbn [snd List.length] in *. lia.
Qed.

Lemma decode_integer_consumes (l : bytes) v rest :
  decode_integer l = Parsed v rest -> List.length rest < S (List.length l).
Proof.
  unfold decode_integer.
  set (nb := match l with
             | [] => (false, l)
             | c :: r => if is_byte c "-" then (true, r) else (false, l)
             end).
  assert (Hbody : List.length (snd nb) <= List.length l).
  { subst nb. destruct l as [|c r]; [constructor|].
    destruct (is_byte c "-"); cbn [snd List.length]; lia. }
  destruct nb as [negative body]. cbn [snd] in Hbody.
  pose proof (span_digits_length body) as Hspan.
  destruct (span_digits body) as [ds rest0]. cbn [snd] in Hspan.
  destruct ds as [|d0 ds]; [unfold unexpected; destruct body; discriminate|].
  destruct (leading_zero (d0 :: ds)); [discriminate|].
  destruct (negative && _); [discriminate|].
  destruct rest0 as [|c rest']; [discriminate|].
  destruct (is_byte c "e"); [|discriminate].
  intros [= _ <-]. cbn [List.length] in Hspan. lia.
Qed.

Lemma decode_bytes_consumes (l : bytes) x rest :
  decode_bytes l = Parsed x rest -> List.length rest < List.length l.
Proof.
  unfold decode_bytes.
  pose proof (span_digits_length l) as Hspan.
  destruct (span_digits l) as [ds rest0]. cbn [snd] in Hspan.
  destruct ds as [|d0 ds]; [unfold unexpected; destruct l; discriminate|].
  destruct (leading_zero (d0 :: ds)); [discriminate|].
  destruct rest0 as [|c payload]; [discriminate|].
  destruct (is_byte c ":"); [|discriminate].
  destruct (List.length payload <? _)%nat; [discriminate|].
  intros [= _ <-]. rewrite length_skipn. cbn [List.length] in Hspan. lia.
Qed.

Section Loops.
Variable dec : bytes -> parse value.
Hypothesis dec_consumes :
  forall l v rest, dec l = Parsed v rest -> List.length rest < List.length l.

Lemma decode_items_consumes (fuel : nat) (l : bytes) vs rest :
  decode_items dec fuel l = Parsed vs rest -> List.length rest < List.length l.
Proof.
  revert l vs rest. induction fuel as [|fuel IH]; intros [|c r] vs rest;
    cbn [decode_items]; try discriminate;
    (destruct (is_byte c "e"); [intros [= _ <-]; cbn; lia|]); try discriminate.
  destruct (dec (c :: r)) as [v rest1|] eqn:E; [|discriminate].
  destruct (decode_items dec fuel rest1) as [vs' rest2|] eqn:E'; [|discriminate].
  intros [= _ <-]. apply dec_consumes in E. apply IH in E'. lia.
Qed.

Lemma decode_pairs_consumes strict (fuel : nat) prev acc (l : bytes) es rest :
  decode_pairs strict dec fuel prev acc l = Parsed es rest ->
  List.length rest < List.length l.
Proof.
  revert prev acc l es rest.
  induction fuel as [|fuel IH]; intros prev acc [|c r] es rest;
    cbn [decode_pairs]; try discriminate;
    (destruct (is_byte c "e"); [intros [= _ <-]; cbn; lia|]); try discriminate.
  destruct (decode_bytes (c :: r)) as [key rest1|] eqn:Ek; [|discriminate].
  destruct (has_key key acc); [discriminate|].
  destruct (strict && _); [discriminate|].
  destruct (dec rest1) as [v rest2|] eqn:E; [|discriminate].
  intros H. apply IH in H. apply decode_bytes_consumes in Ek.
  apply dec_consumes in E. lia.
Qed.

(** Fuel beyond the length of the input changes nothing. *)
Lemma decode_items_fuel (f1 f2 : nat) (l : bytes) :
  List.length l <= f1 -> List.length l <= f2 ->
  decode_items dec f1 l = decode_items dec f2 l.
Proof.
  revert f2 l. induction f1 as [|f1 IH]; intros [|f2] [|c r] H1 H2;
    cbn [List.length] in *; try lia; try reflexivity.
  cbn [decode_items]. destruct (is_byte c "e"); [reflexivity|].
  destruct (dec (c :: r)) as [v rest|] eqn:E; [|reflexivity].
  apply dec_consumes in E. cbn [List.length] in E.
  now rewrite (IH f2 rest) by lia.
Qed.

Lemma decode_pairs_fuel strict (f1 f2 : nat) prev acc (l : bytes) :
  List.length l <= f1 -> List.length l <= f2 ->
  decode_pairs strict dec f1 prev acc l = decode_pairs strict dec f2 prev acc l.
Proof.
  revert f2 prev acc l.
  induction f1 as [|f1 IH]; intros [|f2] prev acc [|c r] H1 H2;
    cbn [List.length] in *; try lia; try reflexivity.
  cbn [decode_pairs]. destruct (is_byte c "e"); [reflexivity|].
  destruct (decode_bytes (c :: r)) as [key rest1|] eqn:Ek; [|reflexivity].
  destruct (has_key key acc); [reflexivity|].
  destruct (strict && _); [reflexivity|].
  destruct (dec rest1) as [v rest2|] eqn:E; [|reflexivity].
  apply decode_bytes_consumes in Ek. apply dec_consumes in E.
  cbn [List.length] in Ek. apply IH; lia.
Qed.

End Loops.

(** A decoded value takes at least one byte of the input. *)
Lemma decode_value_consumes strict (d : nat) (l : bytes) v rest :
  decode_value strict d l = Parsed v rest -> List.length rest < List.length l.
Proof.
  revert l v rest. induction d as [|d IH]; intros [|c r] v rest;
    cbn [decode_value]; try discriminate.
  - destruct (is_byte c "i"); [intros H; apply decode_integer_consumes in H; cbn; lia|].
    destruct (is_digit c).
    { destruct (decode_bytes (c :: r)) eqn:E; [|discriminate].
      intros [= _ <-]. now apply decode_bytes_consumes in E. }
    destruct (is_byte c "l"); [discriminate|].
    destruct (is_byte c "d"); discriminate.
  - destruct (is_byte c "i"); [intros H; apply decode_integer_consumes in H; cbn; lia|].
    destruct (is_digit c).
    { destruct (decode_bytes (c :: r)) eqn:E; [|discriminate].
      intros [= _ <-]. now apply decode_bytes_consumes in E. }
    destruct (is_byte c "l").
    { destruct (decode_items _ _ r) eqn:E; [|discriminate].
      intros [= _ <-]. apply decode_items_consumes in E; [cbn; lia | exact IH]. }
    destruct (is_byte c "d"); [|discriminate].
    destruct (decode_pairs _ _ _ _ _ r) eqn:E; [|discriminate].
    intros [= _ <-]. apply decode_pairs_consumes in E; [cbn; lia | exact IH].
Qed.

(** The fuel the decoder gives its loops, the length of the input, is as
    good as any larger amount: the loops end on the input, not on the fuel. *)
Lemma list_fuel_is_enough strict (d fuel : nat) (l : bytes) :
  List.length l <= fuel ->
  decode_items (decode_value strict d) (List.length l) l
  = decode_items (decode_value strict d) fuel l.
Proof.
  intros H. apply decode_items_fuel; [apply decode_value_consumes | constructor | exact H].
Qed.

Lemma dictionary_fuel_is_enough strict (d fuel : nat) prev acc (l : bytes) :
  List.length l <= fuel ->
  decode_pairs strict (decode_value strict d) (List.length l) prev acc l
  = decode_pairs strict (decode_value strict d) fuel prev acc l.
Proof.
  intros H. apply decode_pairs_fuel; [apply decode_value_consumes | constructor | exact H].
Qed.

End FuelFacts.

(* ================================================================= *)
(** * A smaller depth budget *)

Module DepthFacts.
Import Py Bencode Codec KeyFacts CodecFacts.

Lemma decode_integer_leaf (l : bytes) v rest :
  decode_integer l = Parsed v rest -> depth v = 0.
Proof.
  unfold decode_integer.
  destruct (match l with
            | [] => (false, l)
            | c :: r => if is_byte c "-" then (true, r) else (false, l)
            end) as [negative body].
  destruct (span_digits body) as [ds rest0].
  destruct ds as [|d0 ds]; [unfold unexpected; destruct body; discriminate|].
  destruct (leading_zero (d0 :: ds)); [discriminate|].
  destruct (negative && _); [discriminate|].
  destruct rest0 as [|c rest']; [discriminate|].
  destruct (is_byte c "e"); [|discriminate].
  now intros [= <- _].
Qed.

Lemma entries_depth_insert (k : bytes) (v : value) (acc : list (bytes * value)) :
  entries_depth (dict_insert k v acc) = Nat.max (depth v) (entries_depth acc).
Proof.
  induction acc as [|[k' v'] acc IH]; [reflexivity|].
  cbn [dict_insert]. destruct (bytes_ltb k k'); [reflexivity|].
  unfold entries_depth in *. cbn [fold_right snd]. rewrite IH. lia.
Qed.

Section Loops.
Variable strict : bool.
Variables dec1 dec2 : bytes -> parse value.
Variable d : nat.

(** [dec2] does what [dec1] does on values that fit in [d] levels and
    refuses the others. *)
Hypothesis shallower :
  forall l v rest,
    dec1 l = Parsed v rest ->
    (depth v <= d -> dec2 l = Parsed v rest) /\
    (d < depth v -> exists n, dec2 l = Failed Structure n).

Lemma items_shallower (fuel : nat) :
  forall l vs rest,
    decode_items dec1 fuel l = Parsed vs rest ->
    (items_depth vs <= d -> decode_items dec2 fuel l = Parsed vs rest) /\
    (d < items_depth vs -> exists n, decode_items dec2 fuel l = Failed Structure n).
Proof.
  induction fuel as [|fuel IH]; intros [|c r] vs rest; cbn [decode_items];
    try discriminate;
    (destruct (is_byte c "e"); [intros [= <- <-]; split; [reflexivity | cbn; lia]|]);
    try discriminate.
  destruct (dec1 (c :: r)) as [v rest1|] eqn:E1; [|discriminate].
  destruct (decode_items dec1 fuel rest1) as [vs' rest2|] eqn:E2; [|discriminate].
  intros [= <- <-]. cbn [items_depth fold_right]. fold (items_depth vs').
  destruct (shallower _ _ _ E1) as [Hfit Hdeep].
  destruct (IH _ _ _ E2) as [IHfit IHdeep].
  destruct (Nat.le_gt_cases (depth v) d) as [Hv|Hv].
  - rewrite (Hfit Hv). split; intros H.
    + now rewrite IHfit by lia.
    + destruct IHdeep as (n & ->); [lia|]. eauto.
  - destruct (Hdeep Hv) as (n & ->). split; [lia | eauto].
Qed.

Lemma pairs_depth_grows (dec : bytes -> parse value) (fuel : nat) :
  forall prev acc l es rest,
    decode_pairs strict dec fuel prev acc l = Parsed es rest ->
    entries_depth acc <= entries_depth es.
Proof.
  induction fuel as [|fuel IH]; intros prev acc [|c r] es rest; cbn [decode_pairs];
    try discriminate;
    (destruct (is_byte c "e"); [intros [= <- _]; constructor|]); try discriminate.
  destruct (decode_bytes (c :: r)) as [key rest1|]; [|discriminate].
  destruct (has_key key acc); [discriminate|].
  destruct (strict && _); [discriminate|].
  destruct (dec rest1) as [v rest2|]; [|discriminate].
  intros H. apply IH in H. rewrite entries_depth_insert in H. lia.
Qed.

Lemma pairs_shallower (fuel : nat) :
  forall prev acc l es rest,
    entries_depth acc <= d ->
    decode_pairs strict dec1 fuel prev acc l = Parsed es rest ->
    (entries_depth es <= d ->
     decode_pairs strict dec2 fuel prev acc l = Parsed es rest) /\
    (d < entries_depth es ->
     exists n, decode_pairs strict dec2 fuel prev acc l = Failed Structure n).
Proof.
  induction fuel as [|fuel IH]; intros prev acc [|c r] es rest Hacc;
    cbn [decode_pairs]; try discriminate;
    (destruct (is_byte c "e"); [intros [= <- <-]; split; [reflexivity | lia]|]);
    try discriminate.
  destruct (decode_bytes (c :: r)) as [key rest1|]; [|discriminate].
  destruct (has_key key acc); [discriminate|].
  destruct (strict && _); [discriminate|].
  destruct (dec1 rest1) as [v rest2|] eqn:E1; [|discriminate].
  intros E2. destruct (shallower _ _ _ E1) as [Hfit Hdeep].
  pose proof (pairs_depth_grows _ _ _ _ _ _ _ E2) as Hgrow.
  rewrite entries_depth_insert in Hgrow.
  destruct (Nat.le_gt_cases (depth v) d) as [Hv|Hv].
  - rewrite (Hfit Hv). apply (IH _ _ _ _ _) in E2; [exact E2|].
    rewrite entries_depth_insert. lia.
  - destruct (Hdeep Hv) as (n & ->). split; [lia | eauto].
Qed.

End Loops.

(** With a smaller depth budget the decoder gives the same value when it
    fits, and a structure failure when it does not. *)
Lemma decode_value_shallower strict (big : nat) :
  forall d l v rest,
    decode_value strict big l = Parsed v rest ->
    (depth v <= d -> decode_value strict d l = Parsed v rest) /\
    (d < depth v -> exists n, decode_value strict d l = Failed Structure n).
Proof.
  induction big as [|big IH]; intros d [|c r] v rest;
    try (cbn [decode_value]; discriminate).
  - cbn [decode_value].
    destruct (is_byte c "i") eqn:Ei.
    { intros H. pose proof (decode_integer_leaf _ _ _ H) as Hleaf.
      split; [|lia]. intros _. destruct d; cbn [decode_value]; now rewrite Ei. }
    destruct (is_digit c) eqn:Ed.
    { destruct (decode_bytes (c :: r)) as [x rest'|] eqn:E; [|discriminate].
      intros [= <- <-]. split; [|cbn; lia]. intros _.
      destruct d; cbn [decode_value]; now rewrite Ei, Ed, E. }
    destruct (is_byte c "l"); [discriminate|].
    destruct (is_byte c "d"); discriminate.
  - cbn [decode_value].
    destruct (is_byte c "i") eqn:Ei.
    { intros H. pose proof (decode_integer_leaf _ _ _ H) as Hleaf.
      split; [|lia]. intros _. destruct d; cbn [decode_value]; now rewrite Ei. }
    destruct (is_digit c) eqn:Ed.
    { destruct (decode_bytes (c :: r)) as [x rest'|] eqn:E; [|discriminate].
      intros [= <- <-]. split; [|cbn; lia]. intros _.
      destruct d; cbn [decode_value]; now rewrite Ei, Ed, E. }
    destruct (is_byte c "l") eqn:El.
    { destruct (decode_items _ _ r) as [vs rest'|] eqn:E; [|discriminate].
      intros [= <- <-]. cbn [depth]. fold (items_depth vs).
      destruct d as [|d]; cbn [decode_value]; rewrite Ei, Ed, El;
        [split; [lia | eauto]|].
      destruct (items_shallower _ _ d (IH d) _ _ _ _ E) as [Hfit Hdeep].
      split; intros H.
      - now rewrite Hfit by lia.
      - destruct Hdeep as (n & ->); [lia|]. eauto. }
    destruct (is_byte c "d") eqn:Edict; [|discriminate].
    destruct (decode_pairs _ _ _ _ _ r) as [es rest'|] eqn:E; [|discriminate].
    intros [= <- <-]. cbn [depth]. fold (entries_depth es).
    destruct d as [|d]; cbn [decode_value]; rewrite Ei, Ed, El, Edict;
      [split; [lia | eauto]|].
    destruct (pairs_shallower strict _ _ d (IH d) _ None [] _ _ _ (Nat.le_0_l d) E)
      as [Hfit Hdeep].
    split; intros H.
    + now rewrite Hfit by lia.
    + destruct Hdeep as (n & ->); [lia|]. eauto.
Qed.

End DepthFacts.

(* ================================================================= *)
(** * The machine and the recursive decoder *)

Module MachineFacts.
Import Py Bencode Codec Machine FuelFacts.

Lemma steps_add cfg (n m : nat) (st : state) :
  steps cfg (n + m) st = steps cfg m (steps cfg n st).
Proof. revert st. induction n as [|n IH]; intros st; [reflexivity | apply IH]. Qed.

(** A run that is over stays where it is. *)
Lemma steps_over cfg (n : nat) (st : state) : over st = true -> steps cfg n st = st.
Proof.
  intros H. induction n as [|n IH]; [reflexivity|].
  destruct st; try discriminate H; exact IH.
Qed.

(** A run has one outcome. *)
Lemma outcome_unique cfg (n m : nat) (st a c : state) :
  steps cfg n st = a -> over a = true ->
  steps cfg m st = c -> over c = true ->
  a = c.
Proof.
  intros Ha Oa Hc Oc.
  assert (H1 : steps cfg (n + m) st = a)
    by (rewrite steps_add, Ha; now apply steps_over).
  assert (H2 : steps cfg (m + n) st = c)
    by (rewrite steps_add, Hc; now apply steps_over).
  rewrite Nat.add_comm in H2. congruence.
Qed.

Lemma reaches_refl cfg st : reaches cfg st st.
Proof. now exists 0. Qed.

Lemma reaches_step cfg st st' : reaches cfg (step cfg st) st' -> reaches cfg st st'.
Proof. intros (n & H). now exists (S n). Qed.

Lemma reaches_trans cfg st1 st2 st3 :
  reaches cfg st1 st2 -> reaches cfg st2 st3 -> reaches cfg st1 st3.
Proof.
  intros (n & H1) (m & H2). exists (n + m). now rewrite steps_add, H1.
Qed.

Section Loops.
Variable cfg : config.
Variable dec : bytes -> parse value.
Variable height : nat.

Hypothesis dec_consumes :
  forall l v rest, dec l = Parsed v rest -> List.length rest < List.length l.

Hypothesis dec_follows :
  forall stack l,
    List.length stack = height ->
    follows cfg (Reading stack l) (fun v rest => Returning v stack rest) (dec l).

Lemma items_follow (fuel : nat) :
  forall l done below,
    List.length l <= fuel ->
    S (List.length below) = height ->
    match decode_items dec fuel l with
    | Parsed vs rest =>
        reaches cfg (Within (InList done :: below) l)
          (Returning (List (rev done ++ vs)) below rest)
    | Failed k u => reaches cfg (Within (InList done :: below) l) (Stopped k u)
    end.
Proof.
  induction fuel as [|fuel IH]; intros [|c r] done below Hfuel Hh;
    cbn [decode_items]; try (apply reaches_step, reaches_refl).
  - destruct (is_byte c "e") eqn:Ee; [|cbn in Hfuel; lia].
    apply reaches_step. cbn [step]. rewrite Ee, app_nil_r. apply reaches_refl.
  - destruct (is_byte c "e") eqn:Ee.
    { apply reaches_step. cbn [step]. rewrite Ee, app_nil_r. apply reaches_refl. }
    pose proof (dec_follows (InList done :: below) (c :: r) Hh) as Hdec.
    destruct (dec (c :: r)) as [v rest1|k u] eqn:E1; cbn [follows] in Hdec.
    + pose proof (dec_consumes _ _ _ E1) as Hlen.
      assert (Hrest : List.length rest1 <= fuel) by lia.
      specialize (IH rest1 (v :: done) below Hrest Hh).
      assert (Hhere : reaches cfg (Within (InList done :: below) (c :: r))
                        (Within (InList (v :: done) :: below) rest1)).
      { apply reaches_step. cbn [step]. rewrite Ee.
        eapply reaches_trans; [exact Hdec|]. apply reaches_step, reaches_refl. }
      destruct (decode_items dec fuel rest1) as [vs rest2|k u].
      * cbn [rev] in IH. rewrite <- app_assoc in IH.
        eapply reaches_trans; [exact Hhere | exact IH].
      * eapply reaches_trans; [exact Hhere | exact IH].
    + apply reaches_step. cbn [step]. now rewrite Ee.
Qed.

Lemma pairs_follow (fuel : nat) :
  forall l prev acc below,
    List.length l <= fuel ->
    S (List.length below) = height ->
    match decode_pairs (strict_order cfg) dec fuel prev acc l with
    | Parsed es rest =>
        reaches cfg (Within (InDict prev acc None :: below) l)
          (Returning (Dictionary es) below rest)
    | Failed k u => reaches cfg (Within (InDict prev acc None :: below) l) (Stopped k u)
    end.
Proof.
  induction fuel as [|fuel IH]; intros [|c r] prev acc below Hfuel Hh;
    cbn [decode_pairs]; try (apply reaches_step, reaches_refl).
  - destruct (is_byte c "e") eqn:Ee; [|cbn in Hfuel; lia].
    apply reaches_step. cbn [step]. rewrite Ee. apply reaches_refl.
  - destruct (is_byte c "e") eqn:Ee.
    { apply reaches_step. cbn [step]. rewrite Ee. apply reaches_refl. }
    destruct (decode_bytes (c :: r)) as [key rest1|k u] eqn:Ek;
      [|apply reaches_step; cbn [step]; rewrite Ee, Ek; apply reaches_refl].
    destruct (has_key key acc) eqn:Edup;
      [apply reaches_step; cbn [step]; rewrite Ee, Ek, Edup; apply reaches_refl|].
    destruct (strict_order cfg &&
              match prev with Some p => bytes_ltb key p | None => false end) eqn:Eord;
      [apply reaches_step; cbn [step]; rewrite Ee, Ek, Edup, Eord; apply reaches_refl|].
    assert (Hkey : reaches cfg (Within (InDict prev acc None :: below) (c :: r))
                     (Reading (InDict prev acc (Some key) :: below) rest1)).
    { apply reaches_step. cbn [step]. rewrite Ee, Ek, Edup, Eord. apply reaches_refl. }
    pose proof (dec_follows (InDict prev acc (Some key) :: below) rest1 Hh) as Hdec.
    pose proof (decode_bytes_consumes _ _ _ Ek) as Hklen.
    destruct (dec rest1) as [v rest2|k u] eqn:E1; cbn [follows] in Hdec.
    + pose proof (dec_consumes _ _ _ E1) as Hlen.
      assert (Hrest : List.length rest2 <= fuel) by lia.
      specialize (IH rest2 (Some key) (dict_insert key v acc) below Hrest Hh).
      assert (Hhere : reaches cfg (Within (InDict prev acc None :: below) (c :: r))
                        (Within (InDict (Some key) (dict_insert key v acc) None :: below)
                           rest2)).
      { eapply reaches_trans; [exact Hkey|].
        eapply reaches_trans; [exact Hdec|]. apply reaches_step, reaches_refl. }
      destruct (decode_pairs _ dec fuel _ _ rest2) as [es rest3|k u];
        (eapply reaches_trans; [exact Hhere | exact IH]).
    + eapply reaches_trans; [exact Hkey | exact Hdec].
Qed.

End Loops.

(** The machine does what the recursive decoder does: started with as many
    frames on the stack as the decoder has levels used up, it hands the
    decoder's value to the frame on top, or stops with the decoder's failure. *)
Lemma value_follows cfg (d : nat) :
  forall stack l,
    List.length stack + d = max_depth cfg ->
    follows cfg (Reading stack l) (fun v rest => Returning v stack rest)
      (decode_value (strict_order cfg) d l).
Proof.
  induction d as [|d IH]; intros stack [|c r] Hd;
    try (apply reaches_step, reaches_refl).
  - cbn [decode_value].
    destruct (is_byte c "i") eqn:Ei.
    { destruct (decode_integer r) as [v rest|k u] eqn:E; cbn [follows];
        apply reaches_step; cbn [step]; rewrite Ei, E; apply reaches_refl. }
    destruct (is_digit c) eqn:Edig.
    { destruct (decode_bytes (c :: r)) as [x rest|k u] eqn:E; cbn [follows];
        apply reaches_step; cbn [step]; rewrite Ei, Edig, E; apply reaches_refl. }
    assert (Hfull : (max_depth cfg <=? List.length stack)%nat = true)
      by (apply Nat.leb_le; lia).
    destruct (is_byte c "l") eqn:El.
    { cbn [follows]. apply reaches_step. cbn [step].
      rewrite Ei, Edig, El, Hfull. apply reaches_refl. }
    destruct (is_byte c "d") eqn:Edict; cbn [follows]; apply reaches_step; cbn [step];
      rewrite Ei, Edig, El, Edict, ?Hfull; apply reaches_refl.
  - cbn [decode_value].
    destruct (is_byte c "i") eqn:Ei.
    { destruct (decode_integer r) as [v rest|k u] eqn:E; cbn [follows];
        apply reaches_step; cbn [step]; rewrite Ei, E; apply reaches_refl. }
    destruct (is_digit c) eqn:Edig.
    { destruct (decode_bytes (c :: r)) as [x rest|k u] eqn:E; cbn [follows];
        apply reaches_step; cbn [step]; rewrite Ei, Edig, E; apply reaches_refl. }
    assert (Hroom : (max_depth cfg <=? List.length stack)%nat = false)
      by (apply Nat.leb_gt; lia).
    assert (Hnext : forall stack' l',
               List.length stack' = S (List.length stack) ->
               follows cfg (Reading stack' l') (fun v rest => Returning v stack' rest)
                 (decode_value (strict_order cfg) d l'))
      by (intros stack' l' H'; apply IH; lia).
    destruct (is_byte c "l") eqn:El.
    { pose proof (items_follow cfg _ _ (decode_value_consumes _ _) Hnext
                    (List.length r) r [] stack (Nat.le_refl _) eq_refl) as H.
      destruct (decode_items _ _ r) as [vs rest|k u]; cbn [follows];
        apply reaches_step; cbn [step]; rewrite Ei, Edig, El, Hroom; exact H. }
    destruct (is_byte c "d") eqn:Edict.
    { pose proof (pairs_follow cfg _ _ (decode_value_consumes _ _) Hnext
                    (List.length r) r None [] stack (Nat.le_refl _) eq_refl) as H.
      destruct (decode_pairs _ _ _ _ _ r) as [es rest|k u]; cbn [follows];
        apply reaches_step; cbn [step]; rewrite Ei, Edig, El, Edict, Hroom; exact H. }
    cbn [follows]. apply reaches_step. cbn [step].
    rewrite Ei, Edig, El, Edict. apply reaches_refl.
Qed.

(** A run of the machine ends where the recursive decoder does. *)
Lemma run_follows cfg (l : bytes) :
  match decode_value (strict_order cfg) (max_depth cfg) l with
  | Parsed v rest => reaches cfg (start l) (Finished v rest)
  | Failed k u => reaches cfg (start l) (Stopped k u)
  end.
Proof.
  pose proof (value_follows cfg (max_depth cfg) [] l eq_refl) as H.
  destruct (decode_value _ _ l) as [v rest|k u]; cbn [follows] in H; [|exact H].
  eapply reaches_trans; [exact H|]. apply reaches_step, reaches_refl.
Qed.

(** A failure of the machine is the failure of the recursive decoder. *)
Lemma stop_is_failure cfg (l : bytes) (n : nat) k u :
  steps cfg n (start l) = Stopped k u ->
  decode_value (strict_order cfg) (max_depth cfg) l = Failed k u.
Proof.
  intros Hstop. pose proof (run_follows cfg l) as H.
  destruct (decode_value _ _ l) as [v rest|k' u']; destruct H as (m & Hm).
  - pose proof (outcome_unique cfg _ _ _ _ _ Hstop eq_refl Hm eq_refl). discriminate.
  - pose proof (outcome_unique cfg _ _ _ _ _ Hstop eq_refl Hm eq_refl) as E.
    now injection E as -> ->.
Qed.

(** ** The work stack never holds more than [max_depth] frames *)

Lemma step_stack cfg (st : state) :
  List.length (stack_of st) <= max_depth cfg ->
  List.length (stack_of (step cfg st)) <= max_depth cfg.
Proof.
  destruct st as [stack l|stack l|v stack l|v rest|k u]; cbn [stack_of step];
    intros H; try exact H.
  - destruct l as [|c r]; [apply Nat.le_0_l|].
    destruct (is_byte c "i"); [destruct (decode_integer r); [exact H | apply Nat.le_0_l]|].
    destruct (is_digit c);
      [destruct (decode_bytes (c :: r)); [exact H | apply Nat.le_0_l]|].
    destruct (is_byte c "l").
    { destruct (Nat.leb_spec (max_depth cfg) (List.length stack));
        cbn [stack_of List.length]; lia. }
    destruct (is_byte c "d"); [|apply Nat.le_0_l].
    destruct (Nat.leb_spec (max_depth cfg) (List.length stack));
      cbn [stack_of List.length]; lia.
  - destruct l as [|c r]; [apply Nat.le_0_l|].
    destruct stack as [|[done|prev acc [key|]] below]; cbn [stack_of List.length] in *;
      try apply Nat.le_0_l.
    + destruct (is_byte c "e"); cbn [stack_of List.length]; lia.
    + destruct (is_byte c "e"); cbn [stack_of List.length]; [lia|].
      destruct (decode_bytes (c :: r)); [|apply Nat.le_0_l].
      destruct (has_key _ _); [apply Nat.le_0_l|].
      destruct (strict_order cfg && _); cbn [stack_of List.length]; lia.
  - destruct stack as [|[done|prev acc [key|]] below]; cbn [stack_of List.length] in *;
      lia.
Qed.

Lemma steps_stack cfg (n : nat) :
  forall st,
    List.length (stack_of st) <= max_depth cfg ->
    List.length (stack_of (steps cfg n st)) <= max_depth cfg.
Proof.
  induction n as [|n IH]; intros st H; [exact H|].
  cbn [steps]. now apply IH, step_stack.
Qed.

(** ** What the machine holds never exceeds the input *)

Lemma decode_integer_size (l : bytes) v rest :
  decode_integer l = Parsed v rest -> value_size v + List.length rest <= List.length l.
Proof.
  unfold decode_integer.
  set (nb := match l with
             | [] => (false, l)
             | c :: r => if is_byte c "-" then (true, r) else (false, l)
             end).
  assert (Hbody : List.length (snd nb) <= List.length l).
  { subst nb. destruct l as [|c r]; [constructor|].
    destruct (is_byte c "-"); cbn [snd List.length]; lia. }
  destruct nb as [negative body]. cbn [snd] in Hbody.
  pose proof (span_digits_length body) as Hspan.
  destruct (span_digits body) as [ds rest0]. cbn [snd] in Hspan.
  destruct ds as [|d0 ds]; [unfold unexpected; destruct body; discriminate|].
  destruct (leading_zero (d0 :: ds)); [discriminate|].
  destruct (negative && _); [discriminate|].
  destruct rest0 as [|c rest']; [discriminate|].
  destruct (is_byte c "e"); [|discriminate].
  intros [= <- <-]. cbn [List.length value_size] in *. lia.
Qed.

Lemma decode_bytes_size (l : bytes) x rest :
  decode_bytes l = Parsed x rest ->
  1 + List.length x + List.length rest <= List.length l.
Proof.
  unfold decode_bytes.
  pose proof (span_digits_length l) as Hspan.
  destruct (span_digits l) as [ds rest0]. cbn [snd] in Hspan.
  destruct ds as [|d0 ds]; [unfold unexpected; destruct l; discriminate|].
  destruct (leading_zero (d0 :: ds)); [discriminate|].
  destruct rest0 as [|c payload]; [discriminate|].
  destruct (is_byte c ":"); [|discriminate].
  destruct (Nat.ltb_spec (List.length payload) (N.to_nat (int_of_digits (d0 :: ds))));
    [discriminate|].
  intros [= <- <-]. rewrite length_firstn, length_skipn.
  cbn [List.length] in Hspan. lia.
Qed.

Lemma values_size_app (xs ys : list value) :
  values_size (xs ++ ys) = values_size xs + values_size ys.
Proof.
  unfold values_size. induction xs as [|x xs IH]; [reflexivity|].
  cbn [app fold_right]. rewrite IH. lia.
Qed.

Lemma values_size_rev (xs : list value) : values_size (rev xs) = values_size xs.
Proof.
  induction xs as [|x xs IH]; [reflexivity|].
  cbn [rev]. rewrite values_size_app, IH. unfold values_size. cbn [fold_right]. lia.
Qed.

Lemma entries_size_insert (k : bytes) (v : value) (acc : list (bytes * value)) :
  entries_size (dict_insert k v acc)
  = List.length k + value_size v + entries_size acc.
Proof.
  unfold entries_size. induction acc as [|[k' v'] acc IH]; [reflexivity|].
  cbn [dict_insert]. destruct (bytes_ltb k k'); [reflexivity|].
  cbn [fold_right fst snd]. rewrite IH. lia.
Qed.

Ltac sizes :=
  unfold weight, stack_size, frame_size, values_size, entries_size in *;
  cbn [fold_right value_size List.length fst snd] in *.

Lemma step_weight cfg (st : state) : weight (step cfg st) <= weight st.
Proof.
  destruct st as [stack l|stack l|v stack l|v rest|k u]; cbn [step];
    try apply Nat.le_refl.
  - destruct l as [|c r]; [apply Nat.le_0_l|].
    destruct (is_byte c "i").
    { destruct (decode_integer r) as [v rest|] eqn:E; [|apply Nat.le_0_l].
      apply decode_integer_size in E. sizes. lia. }
    destruct (is_digit c).
    { destruct (decode_bytes (c :: r)) as [x rest|] eqn:E; [|apply Nat.le_0_l].
      apply decode_bytes_size in E. sizes. lia. }
    destruct (is_byte c "l").
    { destruct (max_depth cfg <=? _)%nat; [apply Nat.le_0_l|]. sizes. lia. }
    destruct (is_byte c "d"); [|apply Nat.le_0_l].
    destruct (max_depth cfg <=? _)%nat; [apply Nat.le_0_l|]. sizes. lia.
  - destruct l as [|c r]; [apply Nat.le_0_l|].
    destruct stack as [|[done|prev acc [key|]] below]; try apply Nat.le_0_l.
    + destruct (is_byte c "e"); [|apply Nat.le_refl].
      pose proof (values_size_rev done) as Hrev. sizes. lia.
    + destruct (is_byte c "e"); [sizes; lia|].
      destruct (decode_bytes (c :: r)) as [key rest|] eqn:E; [|apply Nat.le_0_l].
      destruct (has_key _ _); [apply Nat.le_0_l|].
      destruct (strict_order cfg && _); [apply Nat.le_0_l|].
      apply decode_bytes_size in E. sizes. lia.
  - destruct stack as [|[done|prev acc [key|]] below]; try apply Nat.le_0_l.
    + sizes. lia.
    + sizes. lia.
    + pose proof (entries_size_insert key v acc) as Hins. sizes. lia.
Qed.

Lemma steps_weight cfg (n : nat) : forall st, weight (steps cfg n st) <= weight st.
Proof.
  induction n as [|n IH]; intros st; [apply Nat.le_refl|].
  cbn [steps]. etransitivity; [apply IH | apply step_weight].
Qed.

(** ** Two depth bounds on one input *)

(** With the same strictness, two machines take the same step unless one of
    them refuses to open a container. *)
Lemma step_agrees cfg big (st : state) :
  strict_order big = strict_order cfg ->
  step cfg st = step big st \/
  (exists u, step cfg st = Stopped Structure u) \/
  (exists u, step big st = Stopped Structure u).
Proof.
  intros Hs.
  destruct st as [stack l|stack l|v stack l|v rest|k u]; cbn [step];
    try (left; reflexivity).
  - destruct l as [|c r]; [now left|].
    destruct (is_byte c "i"); [now left|].
    destruct (is_digit c); [now left|].
    destruct (is_byte c "l").
    { destruct (max_depth cfg <=? _)%nat; [right; left; eauto|].
      destruct (max_depth big <=? _)%nat; [right; right; eauto | now left]. }
    destruct (is_byte c "d"); [|now left].
    destruct (max_depth cfg <=? _)%nat; [right; left; eauto|].
    destruct (max_depth big <=? _)%nat; [right; right; eauto | now left].
  - rewrite Hs. now left.
Qed.

(** Where a run with a larger bound opens more than [max_depth] containers,
    the run with [max_depth] stops with a structure failure. *)
Lemma deep_run_stops cfg big :
  strict_order big = strict_order cfg ->
  forall n st,
    List.length (stack_of st) <= max_depth cfg ->
    max_depth cfg < List.length (stack_of (steps big n st)) ->
    exists m u, steps cfg m st = Stopped Structure u.
Proof.
  intros Hs. induction n as [|n IH]; intros st Hst Hdeep; [cbn [steps] in Hdeep; lia|].
  cbn [steps] in Hdeep.
  destruct (step_agrees cfg big st Hs) as [E | [(u & E) | (u & E)]].
  - rewrite <- E in Hdeep.
    destruct (IH _ (step_stack cfg st Hst) Hdeep) as (m & u & H).
    now exists (S m), u.
  - now exists 1, u.
  - rewrite E, steps_over in Hdeep by reflexivity. cbn in Hdeep. lia.
Qed.

End MachineFacts.

(* ================================================================= *)
(** * The testable properties of the codec *)

Module CodecProperties.
Import Py Requests Bencode Codec Machine CodecFacts DepthFacts MachineFacts.

(** The decoding examples of section 8. *)
Example decode_zero : decode_all default_config (b "i0e") = inl (Integer 0).
Proof. reflexivity. Qed.

Example decode_negative :
  decode_all default_config (b "i-345e") = inl (Integer (-345)).
Proof. reflexivity. Qed.

Example decode_leading_zero :
  decode_all default_config (b "i042e") = inr (SyntaxError 1).
Proof. reflexivity. Qed.

Example decode_negative_zero :
  decode_all default_config (b "i-0e") = inr (SyntaxError 1).
Proof. reflexivity. Qed.

Example decode_spam :
  decode_all default_config (b "4:spam") = inl (ByteString (b "spam")).
Proof. reflexivity. Qed.

Example decode_empty_string :
  decode_all default_config (b "0:") = inl (ByteString []).
Proof. reflexivity. Qed.

Example decode_spam_eggs :
  decode_all default_config (b "l4:spam4:eggse")
  = inl (List [ByteString (b "spam"); ByteString (b "eggs")]).
Proof. reflexivity. Qed.

Example decode_bar_foo :
  decode_all default_config (b "d3:bar4:spam3:fooi42ee")
  = inl (Dictionary [(b "bar", ByteString (b "spam")); (b "foo", Integer 42)]).
Proof. reflexivity. Qed.

Example decode_keys_out_of_order :
  decode_all default_config (b "d3:fooi42e3:bar4:spame")
  = inl (Dictionary [(b "bar", ByteString (b "spam")); (b "foo", Integer 42)]) /\
  decode_all {| max_depth := 64; strict_order := true |} (b "d3:fooi42e3:bar4:spame")
  = inr (SyntaxError 10).
Proof. split; reflexivity. Qed.

Example decode_duplicate_key :
  decode_all default_config (b "d1:ai1e1:ai2ee") = inr (SyntaxError 7).
Proof. reflexivity. Qed.

Example decode_unknown_byte :
  decode_all default_config (b "x") = inr (SyntaxError 0).
Proof. reflexivity. Qed.

Example decode_trailing_bytes :
  decode_all default_config (b "i1ei2e") = inr (SyntaxError 3) /\
  decode default_config (b "i1ei2e") = inl (Integer 1, 3).
Proof. split; reflexivity. Qed.

Example encode_sorts_keys :
  encode (Dictionary [(b "foo", Integer 42); (b "bar", ByteString (b "spam"))])
  = b "d3:bar4:spam3:fooi42ee".
Proof. reflexivity. Qed.

Lemma depth_nest (n : nat) (v : value) : depth (nest n v) = n + depth v.
Proof.
  induction n as [|n IH]; [reflexivity|].
  cbn [nest depth fold_right]. rewrite IH. lia.
Qed.

Lemma unique_keys_nest (n : nat) (v : value) :
  unique_keys (nest n v) = unique_keys v.
Proof.
  induction n as [|n IH]; [reflexivity|].
  cbn [nest unique_keys forallb]. now rewrite IH, andb_true_r.
Qed.

(** Openings beyond the budget are refused at the first one too many,
    whatever follows it. *)
Lemma deep_opening_refused strict (d k : nat) (tail : bytes) :
  decode_value strict d (repeat "l"%byte (S d + k) ++ tail)
  = Failed Structure (S k + List.length tail).
Proof.
  induction d as [|d IH].
  - cbn [Nat.add repeat app]. rewrite decode_value_list.
    now rewrite length_app, repeat_length.
  - change (S (S d) + k) with (S (S d + k)). cbn [repeat app].
    rewrite decode_value_list.
    remember (repeat "l"%byte (S d + k) ++ tail) as r eqn:Hr.
    assert (Hhead : exists r', r = "l"%byte :: r') by (subst r; cbn; eauto).
    destruct Hhead as (r' & Hr'). clear Hr. subst r.
    cbn [List.length decode_items].
    change (is_byte "l"%byte "e") with false. cbv iota.
    now rewrite IH.
Qed.

(** C6, as the claim has it, fails: the decoder refuses a tree nested deeper
    than the configured maximum, so such a tree does not come back. *)
Lemma round_trip_stops_at_max_depth :
  well_formed (nest 65 (Integer 0)) = true /\
  decode_all default_config (encode (nest 65 (Integer 0)))
    = inr (StructureError 64) /\
  decode_all default_config (encode (nest 65 (Integer 0)))
    <> inl (nest 65 (Integer 0)).
Proof. repeat split. vm_compute. discriminate. Qed.

(** C6, amended: for every tree whose dictionaries have unique keys and
    whose nesting depth is within the configured maximum, decoding the
    encoder's output gives the tree again, each dictionary listing its
    entries in key order; for a tree that lists them so already, that is the
    very same tree. *)
Theorem round_trip (cfg : config) (v : value) :
  unique_keys v = true ->
  depth v <= max_depth cfg ->
  decode_all cfg (encode v) = inl (canon v) /\
  (well_formed v = true -> decode_all cfg (encode v) = inl v).
Proof.
  intros Huniq Hd.
  assert (H : decode_all cfg (encode v) = inl (canon v)).
  { unfold decode_all.
    destruct (decode_value_encode (strict_order cfg) v Huniq (max_depth cfg) [])
      as [Hfit _].
    rewrite app_nil_r in Hfit. now rewrite Hfit. }
  split; [exact H|]. intros Hwf. now rewrite H, canon_well_formed.
Qed.

Lemma round_trip_witness :
  decode_all default_config
    (encode (Dictionary
               [(b "foo", Dictionary [(b "", Integer 0)]);
                (b "bar", List [ByteString (b "spam"); Integer (-345)])]))
  = inl (Dictionary
           [(b "bar", List [ByteString (b "spam"); Integer (-345)]);
            (b "foo", Dictionary [(b "", Integer 0)])]).
Proof.
  refine (proj1 (round_trip default_config
                   (Dictionary
                      [(b "foo", Dictionary [(b "", Integer 0)]);
                       (b "bar", List [ByteString (b "spam"); Integer (-345)])])
                   _ _)); [reflexivity | vm_compute; lia].
Defined.

(** C7: the input [4:sp], whose length prefix reaches past the end of the
    buffer, fails as truncated input and not as a syntax error. *)
Theorem truncated_byte_string (cfg : config) :
  decode_all cfg (b "4:sp") = inr (TruncatedInputError 4) /\
  forall offset, decode_all cfg (b "4:sp") <> inr (SyntaxError offset).
Proof.
  assert (H : decode_all cfg (b "4:sp") = inr (TruncatedInputError 4))
    by (destruct cfg as [[|d] strict]; reflexivity).
  split; [exact H|]. intros offset. rewrite H. discriminate.
Qed.

(** The same for every length prefix that reaches past the end of the
    buffer. *)
Lemma length_prefix_past_end (cfg : config) (n : nat) (payload : bytes) :
  List.length payload < n ->
  decode_all cfg (decimal (N.of_nat n) ++ b ":" ++ payload)
  = inr (TruncatedInputError
           (List.length (decimal (N.of_nat n) ++ b ":" ++ payload))).
Proof.
  intros Hn. unfold decode_all.
  destruct (DecimalFacts.decimal_head (N.of_nat n)) as (c & ds & Hds & Hc & Hz).
  assert (H : decode_bytes (decimal (N.of_nat n) ++ b ":" ++ payload)
              = Failed Truncated 0).
  { unfold decode_bytes. change (b ":") with [":"%byte]. cbn [app].
    rewrite DecimalFacts.span_decimal by reflexivity.
    rewrite DecimalFacts.decimal_value. rewrite Hds at 1. rewrite Hds at 1.
    rewrite Hz. change (is_byte ":"%byte ":") with true. cbv iota.
    rewrite Nat2N.id. now apply Nat.ltb_lt in Hn as ->. }
  rewrite Hds in *. cbn [app] in *.
  rewrite decode_value_bytes, H by exact Hc. cbn [error_at].
  now rewrite Nat.sub_0_r.
Qed.

(** An encoded tree nested deeper than the configured maximum is refused
    with a structure error. *)
Lemma encoded_tree_too_deep (cfg : config) (v : value) :
  unique_keys v = true ->
  max_depth cfg < depth v ->
  exists offset, decode_all cfg (encode v) = inr (StructureError offset).
Proof.
  intros Huniq Hd. unfold decode_all.
  destruct (decode_value_encode (strict_order cfg) v Huniq (max_depth cfg) [])
    as [_ Hdeep].
  rewrite app_nil_r in Hdeep. destruct (Hdeep Hd) as (n & Hn).
  rewrite Hn. cbn [error_at]. eauto.
Qed.

(** C8: every input document nested beyond the configured maximum is refused
    with a structure error, in bounded stack and memory.  The document [l]
    is any byte sequence, written by the encoder or not, that a decoder with
    another maximum [big] and the same strictness decodes to a tree deeper
    than [max_depth cfg], or on which the run with [big] has more than
    [max_depth cfg] containers open at a time, whether the input goes on as
    a document after that or not.  The decoder, a total function whose
    recursion goes down on the depth budget, then answers with a structure
    error; the machine with the explicit work stack stops after finitely
    many steps with the same failure at the same place; and at every step
    of the run the stack holds at most [max_depth cfg] frames, and the
    stack, the value in hand and the unread input together take no more
    than the length of the input, however deep the nesting is. *)
Theorem nesting_beyond_max_depth (cfg big : config) (l : bytes) :
  strict_order big = strict_order cfg ->
  (exists v, decode_all big l = inl v /\ max_depth cfg < depth v) \/
  (exists n, max_depth cfg < List.length (stack_of (steps big n (start l)))) ->
  (exists unread,
     decode_all cfg l = inr (StructureError (List.length l - unread)) /\
     exists n, steps cfg n (start l) = Stopped Structure unread) /\
  (forall n,
     List.length (stack_of (steps cfg n (start l))) <= max_depth cfg /\
     weight (steps cfg n (start l)) <= List.length l).
Proof.
  intros Hs Hdeep.
  assert (Hstop : exists u, decode_value (strict_order cfg) (max_depth cfg) l
                            = Failed Structure u).
  { destruct Hdeep as [(v & Hv & Hd) | (n & Hn)].
    - unfold decode_all in Hv.
      destruct (decode_value (strict_order big) (max_depth big) l)
        as [v' [|c rest]|] eqn:E; try discriminate Hv.
      injection Hv as ->. rewrite Hs in E.
      destruct (decode_value_shallower _ _ (max_depth cfg) _ _ _ E) as [_ H].
      exact (H Hd).
    - destruct (deep_run_stops cfg big Hs n (start l) (Nat.le_0_l _) Hn)
        as (m & u & H).
      exists u. exact (stop_is_failure cfg l m _ _ H). }
  destruct Hstop as (u & Hu). split.
  - exists u. split.
    + unfold decode_all. now rewrite Hu.
    + pose proof (run_follows cfg l) as H. rewrite Hu in H. exact H.
  - intros n. split.
    + apply steps_stack. apply Nat.le_0_l.
    + apply (steps_weight cfg n (start l)).
Qed.

Lemma nesting_beyond_max_depth_witness :
  (exists unread,
     decode_all default_config unsorted_deep_document
       = inr (StructureError (List.length unsorted_deep_document - unread)) /\
     exists n, steps default_config n (start unsorted_deep_document)
               = Stopped Structure unread) /\
  (forall n,
     List.length (stack_of (steps default_config n (start unsorted_deep_document)))
       <= 64 /\
     weight (steps default_config n (start unsorted_deep_document))
       <= List.length unsorted_deep_document).
Proof.
  apply (nesting_beyond_max_depth default_config
           {| max_depth := 100; strict_order := false |} unsorted_deep_document).
  - reflexivity.
  - left. exists (Dictionary [(b "a", nest 64 (List [])); (b "b", Integer 0)]).
    split; [vm_compute; reflexivity | vm_compute; lia].
Defined.

(** The unsorted document is not one the encoder writes; the decoder
    refuses it at its 64th opening of a list, byte 73. *)
Example unsorted_deep_document_refused :
  decode_all {| max_depth := 100; strict_order := false |} unsorted_deep_document
    = inl (Dictionary [(b "a", nest 64 (List [])); (b "b", Integer 0)]) /\
  encode (Dictionary [(b "a", nest 64 (List [])); (b "b", Integer 0)])
    <> unsorted_deep_document /\
  decode_all default_config unsorted_deep_document = inr (StructureError 73).
Proof. split; [|split]; vm_compute; [reflexivity | discriminate | reflexivity]. Qed.

(** A buffer that only opens lists, and ends before one is closed, is
    refused in the same way. *)
Example unfinished_document_refused :
  decode_all default_config (repeat "l"%byte 1000) = inr (StructureError 64) /\
  List.length (stack_of (steps {| max_depth := 2000; strict_order := false |} 200
                           (start (repeat "l"%byte 1000)))) = 100.
Proof. split; vm_compute; reflexivity. Qed.

(** The same for a buffer that opens more lists than allowed, whether or not
    it goes on as a bencode document: the error is raised at the first
    opening too many. *)
Lemma deep_input_refused (cfg : config) (n : nat) (tail : bytes) :
  max_depth cfg < n ->
  decode_all cfg (repeat "l"%byte n ++ tail)
  = inr (StructureError (max_depth cfg)).
Proof.
  intros Hn. unfold decode_all.
  replace n with (S (max_depth cfg) + (n - S (max_depth cfg))) by lia.
  rewrite deep_opening_refused. cbn [error_at]. do 2 f_equal.
  rewrite length_app, repeat_length. lia.
Qed.

(** The scrape-shaped response of section 8, decoded and read with the
    lookups of [manual-scrape-better.py]. *)
Example scrape_shape_extraction :
  let content :=
    b "d5:filesd20:AAAAAAAAAAAAAAAAAAAAd8:completei5e10:incompletei2e10:downloadedi100eeee" in
  exists tree,
    decode_all default_config content = inl tree /\
    ManualScrapeBetter.read_stats (b "AAAAAAAAAAAAAAAAAAAA") tree
    = ([ManualScrapeBetter.Stats
          {| ManualScrapeBetter.seeders := Integer 5;
             ManualScrapeBetter.leechers := Integer 2;
             ManualScrapeBetter.downloads := Integer 100 |}],
       Some (Some {| ManualScrapeBetter.seeders := Integer 5;
                     ManualScrapeBetter.leechers := Integer 2;
                     ManualScrapeBetter.downloads := Integer 100 |})) /\
    ManualScrapeBetter.read_stats (b "BBBBBBBBBBBBBBBBBBBB") tree
    = ([ManualScrapeBetter.HashNotFound], Some None).
Proof. eexists. repeat split. Qed.

(** C2: a well-formed scrape response in which [8:completei5e] is the content
    of a byte string, stored under the key [name], and not a field: decoded,
    the entry of the queried identifier has no [complete] key and the lookups
    give zero seeders, while the pattern search of [manual-scrape.py] reports
    five. *)
Theorem pattern_search_misreads_byte_string :
  exists content id tree st,
    id = b "AAAAAAAAAAAAAAAAAAAA" /\
    content = b "d5:filesd20:AAAAAAAAAAAAAAAAAAAAd4:name13:8:completei5eeee" /\
    decode_all default_config content = inl tree /\
    encode tree = content /\
    tree = Dictionary [(b "files", Dictionary [(id, Dictionary st)])] /\
    st = [(b "name", ByteString (b "8:completei5e"))] /\
    lookup (b "complete") st = None /\
    (forall limit tracker_url, exists out,
       ManualScrape.scrape_http_tracker (fun _ _ => Response 200 content) limit
         tracker_url (s "4141414141414141414141414141414141414141")
       = ManualScrape.Returns out
           (Some {| ManualScrape.seeders := 5; ManualScrape.leechers := 0;
                    ManualScrape.downloads := 0 |})) /\
    (forall tracker_url, exists out,
       ManualScrapeBetter.scrape_http_tracker (fun _ _ => Response 200 content)
         (fun body => match decode_all default_config body with
                      | inl v => Some v
                      | inr _ => None
                      end)
         tracker_url (s "4141414141414141414141414141414141414141")
       = ManualScrapeBetter.Returns out
           (Some {| ManualScrapeBetter.seeders := Integer 0;
                    ManualScrapeBetter.leechers := Integer 0;
                    ManualScrapeBetter.downloads := Integer 0 |})).
Proof.
  do 4 eexists. repeat split; try reflexivity.
  - intros [|[|limit]] tracker_url; eexists; reflexivity.
  - intros tracker_url. eexists. reflexivity.
Qed.

End CodecProperties.

(* ================================================================= *)
(** * More about the scrape URL *)

Module ScrapeUrlMore.
Import Py PyFacts ScrapeUrl ScrapeUrlFacts.

Lemma startswith_nth (p l : str) (i : nat) (d : ascii) :
  startswith ascii_eqb p l = true -> i < List.length p -> nth i l d = nth i p d.
Proof.
  revert l i. induction p as [|x p IH]; intros [|y l] i; simpl; try easy; try lia.
  intros H Hi. apply andb_true_iff in H as [Hxy H].
  apply ascii_eqb_eq in Hxy. subst y.
  destruct i as [|i]; [reflexivity|]. apply IH; [exact H | lia].
Qed.

Lemma startswith_within (p a t : str) :
  List.length p <= List.length a ->
  startswith ascii_eqb p (a ++ t) = startswith ascii_eqb p a.
Proof.
  revert a. induction p as [|x p IH]; intros [|y a]; simpl; try easy; try lia.
  intros H. f_equal. apply IH. lia.
Qed.

(** [/announce] has its only slash in front, so it cannot start inside a
    text without it and run over a slash that follows. *)
Lemma no_straddle (a t : str) :
  a <> [] ->
  startswith ascii_eqb announce a = false ->
  startswith ascii_eqb announce (a ++ "/"%char :: t) = false.
Proof.
  intros Ha H.
  destruct (Nat.le_gt_cases (List.length announce) (List.length a)) as [Hlen|Hlen].
  - now rewrite startswith_within.
  - destruct (startswith ascii_eqb announce (a ++ "/"%char :: t)) eqn:E;
      [|reflexivity].
    pose proof (startswith_nth _ _ (List.length a) "x"%char E Hlen) as Hn.
    rewrite nth_middle in Hn.
    destruct a as [|c a]; [congruence|]. cbn [List.length] in *.
    change (List.length announce) with 9 in Hlen.
    remember (List.length a) as n eqn:Hna. clear - Hn Hlen.
    do 8 (destruct n as [|n]; [vm_compute in Hn; discriminate Hn|]). lia.
Qed.

Lemma contains_before_slash (a t : str) :
  str_contains announce a = false ->
  str_contains announce (a ++ "/"%char :: t)
  = str_contains announce ("/"%char :: t).
Proof.
  induction a as [|c a IH]; [reflexivity|]. intros H.
  apply contains_cons_false in H as [H1 H2].
  change ((c :: a) ++ "/"%char :: t) with (c :: (a ++ "/"%char :: t)).
  unfold str_contains at 1. cbn [contains]. fold (str_contains announce).
  change (c :: a ++ "/"%char :: t) with ((c :: a) ++ "/"%char :: t).
  rewrite no_straddle by (congruence || exact H1). now apply IH.
Qed.

Lemma replace_before_slash (a t : str) :
  str_contains announce a = false ->
  str_replace announce scrape (a ++ "/"%char :: t)
  = a ++ str_replace announce scrape ("/"%char :: t).
Proof.
  induction a as [|c a IH]; [reflexivity|]. intros H.
  apply contains_cons_false in H as [H1 H2].
  change ((c :: a) ++ "/"%char :: t) with (c :: (a ++ "/"%char :: t)).
  rewrite replace_miss.
  - cbn [app]. f_equal. now apply IH.
  - change (c :: a ++ "/"%char :: t) with ((c :: a) ++ "/"%char :: t).
    apply no_straddle; [congruence | exact H1].
Qed.

Lemma contains_at (p a t : str) : str_contains p (a ++ p ++ t) = true.
Proof.
  unfold str_contains. induction a as [|c a IH]; cbn [app].
  - destruct (p ++ t) eqn:E; cbn [contains]; rewrite <- ?E;
      now rewrite startswith_app.
  - cbn [contains]. rewrite IH. apply orb_true_r.
Qed.

Lemma contains_in_prefix (p a t : str) :
  str_contains p (a ++ t) = false -> str_contains p a = false.
Proof.
  unfold str_contains. induction a as [|c a IH]; cbn [app].
  - destruct p as [|x p]; [|reflexivity].
    destruct t; cbn; discriminate.
  - cbn [contains]. intros H. apply orb_false_iff in H as [H1 H2].
    rewrite (IH H2), orb_false_r.
    destruct (startswith ascii_eqb p (c :: a)) eqn:E; [|reflexivity].
    apply (startswith_longer _ _ t) in E. cbn [app] in E. congruence.
Qed.

Lemma no_segment_without_announce (t : str) :
  str_contains announce t = false -> replace_last_segment t = None.
Proof.
  induction t as [|c t IH]; [reflexivity|]. intros H.
  apply contains_cons_false in H as [H1 H2].
  cbn [replace_last_segment]. rewrite (IH H2).
  unfold segment_here. now rewrite H1.
Qed.

Lemma replace_last_segment_keeps (a l r : str) :
  replace_last_segment l = Some r ->
  replace_last_segment (a ++ l) = Some (a ++ r).
Proof.
  intros H. induction a as [|c a IH]; [exact H|].
  cbn [app replace_last_segment]. now rewrite IH.
Qed.

(** A path segment ends here: at the end of the URL or before a slash. *)
Lemma last_segment_replaced (t : str) :
  str_contains announce t = false ->
  match t with
  | [] => True
  | c :: _ => c = "/"%char
  end ->
  replace_last_segment (announce ++ t) = Some (scrape ++ t).
Proof.
  intros Ht Hend.
  pose proof (no_segment_without_announce t Ht) as Hnone.
  assert (Hseg : segment_here (announce ++ t) = true).
  { unfold segment_here. rewrite startswith_app.
    rewrite skipn_app, Nat.sub_diag, skipn_all. cbn [app skipn].
    destruct t as [|c t]; [reflexivity|]. subst c. reflexivity. }
  change (announce ++ t)
    with ("/"%char :: "a"%char :: "n"%char :: "n"%char :: "o"%char :: "u"%char
          :: "n"%char :: "c"%char :: "e"%char :: t) in *.
  cbn [replace_last_segment]. rewrite Hnone.
  unfold segment_here at 1 2 3 4 5 6 7 8. cbn [startswith announce s list_ascii_of_string].
  change (ascii_eqb "/" "e") with false. change (ascii_eqb "/" "c") with false.
  change (ascii_eqb "/" "n") with false. change (ascii_eqb "/" "u") with false.
  change (ascii_eqb "/" "o") with false. change (ascii_eqb "/" "a") with false.
  cbn [andb]. rewrite Hseg. reflexivity.
Qed.

Lemma rstrip_slashes_only (k : nat) : str_rstrip (s "/") (repeat "/"%char k) = [].
Proof.
  unfold str_rstrip. induction k as [|k IH]; [reflexivity|].
  cbn [repeat rstrip]. now rewrite IH.
Qed.

Lemma rstrip_trailing_slashes (l : str) (k : nat) :
  str_rstrip (s "/") (l ++ repeat "/"%char k) = str_rstrip (s "/") l.
Proof.
  induction l as [|c l IH]; [apply rstrip_slashes_only|].
  unfold str_rstrip in *. cbn [app rstrip]. now rewrite IH.
Qed.

Lemma no_announce_in_slashes (k : nat) :
  str_contains announce (repeat "/"%char k) = false.
Proof.
  induction k as [|k IH]; [reflexivity|].
  unfold str_contains in *. cbn [repeat contains]. rewrite IH.
  destruct k; reflexivity.
Qed.

Lemma no_announce_with_slashes (u : str) (k : nat) :
  str_contains announce u = false ->
  str_contains announce (u ++ repeat "/"%char k) = false.
Proof.
  intros H. destruct k as [|k]; [now rewrite app_nil_r|].
  cbn [repeat]. rewrite contains_before_slash by exact H.
  exact (no_announce_in_slashes (S k)).
Qed.

Lemma only_announce_replaced_aux (base t : str) :
  str_contains announce base = false ->
  str_contains announce t = false ->
  scrape_url (base ++ announce ++ t) = base ++ scrape ++ t.
Proof.
  intros Hbase Ht. unfold scrape_url. rewrite contains_at.
  change (announce ++ t) with ("/"%char :: (s "announce" ++ t)).
  rewrite replace_before_slash by exact Hbase.
  change ("/"%char :: (s "announce" ++ t)) with (announce ++ t).
  rewrite replace_hit by apply announce_nonempty.
  now rewrite replace_absent.
Qed.

(** X1: a URL in which [/announce] occurs once has that occurrence replaced
    by [/scrape] and everything around it kept. *)
Theorem only_announce_replaced (base t : str) :
  str_contains announce base = false ->
  str_contains announce t = false ->
  scrape_url (base ++ announce ++ t) = base ++ scrape ++ t.
Proof.
  intros Hbase Ht. unfold scrape_url. rewrite contains_at.
  change (announce ++ t) with ("/"%char :: (s "announce" ++ t)).
  rewrite replace_before_slash by exact Hbase.
  change ("/"%char :: (s "announce" ++ t)) with (announce ++ t).
  rewrite replace_hit by apply announce_nonempty.
  now rewrite replace_absent.
Qed.

Lemma only_announce_replaced_witness :
  scrape_url (s "http://tracker.example:6969" ++ announce ++ s "?key=1")
  = s "http://tracker.example:6969" ++ scrape ++ s "?key=1".
Proof.
  apply (only_announce_replaced (s "http://tracker.example:6969") (s "?key=1"));
    reflexivity.
Defined.

(** X2: when [/announce] occurs once and is a whole path segment (the URL
    ends after it, or a slash follows), the scripts' replacement of the text
    gives what replacing the last [/announce] path segment gives; so it does
    for the usual tracker URL that ends in [/announce]. *)
Theorem agrees_with_last_segment_rule (base t : str) :
  str_contains announce base = false ->
  str_contains announce t = false ->
  match t with
  | [] => True
  | c :: _ => c = "/"%char
  end ->
  scrape_url (base ++ announce ++ t) = spec_scrape_url (base ++ announce ++ t).
Proof.
  intros Hbase Ht Hend. rewrite (only_announce_replaced_aux base t Hbase Ht).
  unfold spec_scrape_url.
  now rewrite (replace_last_segment_keeps base _ _ (last_segment_replaced t Ht Hend)).
Qed.

Lemma agrees_with_last_segment_rule_witness :
  scrape_url (s "http://tracker.opentrackr.org:1337" ++ announce ++ [])
  = spec_scrape_url (s "http://tracker.opentrackr.org:1337" ++ announce ++ []).
Proof.
  apply (agrees_with_last_segment_rule (s "http://tracker.opentrackr.org:1337") []);
    [reflexivity | reflexivity | exact I].
Defined.

(** X3: whatever the tracker URL, the scrape URL holds the text [/scrape]
    and no [/announce]. *)
Theorem scrape_url_shape (u : str) :
  str_contains scrape (scrape_url u) = true /\
  str_contains announce (scrape_url u) = false.
Proof.
  unfold scrape_url. destruct (str_contains announce u) eqn:E.
  - split; [|apply no_announce_left].
    destruct (first_occurrence u E) as (a & t & _ & _ & ->). apply contains_at.
  - destruct (rstrip_slash u) as (k & Hu & _).
    set (base := str_rstrip (s "/") u) in *. split.
    + rewrite <- (app_nil_r scrape). apply contains_at.
    + rewrite Hu in E. apply contains_in_prefix in E.
      change scrape with ("/"%char :: s "scrape").
      now rewrite contains_before_slash.
Qed.

(** X4: for a tracker URL without [/announce], slashes at its end make no
    difference to the scrape URL. *)
Theorem trailing_slashes_ignored (u : str) (k : nat) :
  str_contains announce u = false ->
  scrape_url (u ++ repeat "/"%char k) = scrape_url u.
Proof.
  intros H. unfold scrape_url.
  now rewrite (no_announce_with_slashes u k H), H, rstrip_trailing_slashes.
Qed.

Lemma trailing_slashes_ignored_witness :
  scrape_url (s "http://tracker.example:6969" ++ repeat "/"%char 3)
  = scrape_url (s "http://tracker.example:6969").
Proof.
  apply (trailing_slashes_ignored (s "http://tracker.example:6969") 3). reflexivity.
Defined.

End ScrapeUrlMore.

(* ================================================================= *)
(** * More about the info hash on the wire *)

Module InfoHashMore.
Import Py Requests PyText PyFacts InfoHashFacts.

Lemma to_N_byte_of_N (n : N) : (n < 256)%N -> Byte.to_N (byte_of_N n) = n.
Proof.
  intros Hn. unfold byte_of_N.
  pose proof (byte_of_ascii_via_N (ascii_of_N n)) as H.
  rewrite N_ascii_embedding in H by exact Hn.
  symmetry in H. now apply Byte.to_of_N in H.
Qed.

Lemma flat_map_flat_map {A B C} (f : B -> list C) (g : A -> list B) (l : list A) :
  flat_map f (flat_map g l) = flat_map (fun x => flat_map f (g x)) l.
Proof.
  induction l as [|x l IH]; [reflexivity|].
  cbn [flat_map]. now rewrite flat_map_app, IH.
Qed.

Lemma flat_map_ext_in {A B} (f g : A -> list B) (l : list A) :
  (forall x, In x l -> f x = g x) -> flat_map f l = flat_map g l.
Proof.
  induction l as [|x l IH]; intros H; [reflexivity|].
  cbn [flat_map]. rewrite (H x) by now left.
  f_equal. apply IH. intros y Hy. apply H. now right.
Qed.

Lemma map_flat_map {A B C} (f : B -> C) (g : A -> list B) (l : list A) :
  map f (flat_map g l) = flat_map (fun x => map f (g x)) l.
Proof.
  induction l as [|x l IH]; [reflexivity|].
  cbn [flat_map]. now rewrite map_app, IH.
Qed.

(** Replacing one character by another is a map. *)
Lemma replace_char (c d : ascii) (l : str) :
  str_replace [c] [d] l = map (fun x => if ascii_eqb c x then d else x) l.
Proof.
  unfold str_replace, replace. induction l as [|x l IH]; [reflexivity|].
  cbn [replace_from startswith map List.length Nat.sub app].
  rewrite andb_true_r. destruct (ascii_eqb c x); cbn [app]; now rewrite IH.
Qed.

Lemma contains_byte (c : byte) (l : bytes) :
  bytes_contains [c] l = existsb (byte_eqb c) l.
Proof.
  unfold bytes_contains. induction l as [|x l IH]; [reflexivity|].
  cbn [contains startswith existsb]. now rewrite andb_true_r, IH.
Qed.

(** [quote_plus], byte by byte. *)
Lemma quote_plus_bytewise (x : bytes) :
  Urllib.quote_plus x = flat_map plus_quoter x.
Proof.
  unfold Urllib.quote_plus. change (b " ") with [" "%byte].
  rewrite contains_byte.
  destruct (existsb (byte_eqb " "%byte) x) eqn:E; cbn [negb].
  - change (s " ") with [" "%char]. change (s "+") with ["+"%char].
    rewrite replace_char. unfold Urllib.quote. rewrite map_flat_map.
    apply flat_map_ext. intros c. destruct c; reflexivity.
  - unfold Urllib.quote. clear - E. induction x as [|c x IH]; [reflexivity|].
    cbn [existsb] in E. apply orb_false_iff in E as [Ec E].
    cbn [flat_map]. rewrite (IH E). f_equal.
    unfold plus_quoter. destruct c; try reflexivity. discriminate Ec.
Qed.

(** What [manual-scrape.py] puts on the wire for one byte of the hash. *)
Lemma manual_bytewise (raw : bytes) :
  Urllib.quote_plus (utf8_encode (Urllib.quote raw []))
  = flat_map (fun c => flat_map plus_quoter (utf8_encode (Urllib.quoter [] c))) raw.
Proof.
  rewrite quote_plus_bytewise. unfold Urllib.quote, utf8_encode.
  rewrite (flat_map_flat_map utf8_char). now rewrite flat_map_flat_map.
Qed.

Lemma manual_byte_safe (c : byte) :
  Urllib.always_safe c = true ->
  flat_map plus_quoter (utf8_encode (Urllib.quoter [] c)) = plus_quoter c.
Proof. destruct c; intros H; try discriminate H; reflexivity. Qed.

Lemma manual_byte_longer (c : byte) :
  List.length (plus_quoter c)
  <= List.length (flat_map plus_quoter (utf8_encode (Urllib.quoter [] c))) /\
  (Urllib.always_safe c = false ->
   List.length (plus_quoter c)
   < List.length (flat_map plus_quoter (utf8_encode (Urllib.quoter [] c)))).
Proof.
  destruct c; vm_compute; (split; [lia | intros H; (discriminate H || lia)]).
Qed.

Lemma manual_longer (raw : bytes) :
  List.length (flat_map plus_quoter raw)
  <= List.length
       (flat_map (fun c => flat_map plus_quoter (utf8_encode (Urllib.quoter [] c))) raw)
  /\
  (forallb Urllib.always_safe raw = false ->
   List.length (flat_map plus_quoter raw)
   < List.length
       (flat_map (fun c => flat_map plus_quoter (utf8_encode (Urllib.quoter [] c))) raw)).
Proof.
  induction raw as [|c raw [IHle IHlt]]; [split; [constructor | discriminate]|].
  cbn [flat_map forallb]. rewrite !length_app.
  destruct (manual_byte_longer c) as [Hle Hlt]. split; [lia|].
  intros H. apply andb_false_iff in H as [H|H];
    [specialize (Hlt H) | specialize (IHlt H)]; lia.
Qed.

(** X5: for every hash that converts, the two scripts send the same
    [info_hash] value exactly when each of its bytes is an unreserved
    character; one byte that needs an escape makes them differ. *)
Theorem params_agree_iff_unreserved (h : str) (raw : bytes) :
  bytes_fromhex h = Some raw ->
  (ManualScrape.info_hash_param h = ManualScrapeBetter.info_hash_param h
   <-> forallb Urllib.always_safe raw = true).
Proof.
  intros Hraw.
  unfold ManualScrape.info_hash_param, ManualScrape.hex_to_url_encoded,
    ManualScrapeBetter.info_hash_param, encode_param_value.
  rewrite Hraw, manual_bytewise, quote_plus_bytewise. split.
  - intros [= H]. destruct (forallb Urllib.always_safe raw) eqn:E; [reflexivity|].
    destruct (manual_longer raw) as [_ Hlt]. specialize (Hlt E).
    rewrite H in Hlt. lia.
  - intros H. f_equal. apply flat_map_ext_in.
    rewrite forallb_forall in H. intros c Hc. now apply manual_byte_safe, H.
Qed.

Lemma params_agree_iff_unreserved_witness :
  ManualScrape.info_hash_param (s "4142432d5f2e7e303132") 
  = ManualScrapeBetter.info_hash_param (s "4142432d5f2e7e303132")
  <-> forallb Urllib.always_safe (b "ABC-_.~012") = true.
Proof.
  apply (params_agree_iff_unreserved (s "4142432d5f2e7e303132") (b "ABC-_.~012")).
  reflexivity.
Defined.

Lemma quoter_chars (c : byte) :
  forallb url_char (Urllib.quoter [] c) = true /\
  1 <= List.length (Urllib.quoter [] c) <= 3.
Proof. destruct c; vm_compute; (split; [reflexivity | lia]). Qed.

(** X6: the text [hex_to_url_encoded] returns is made of unreserved
    characters and percent signs only, and holds between one and three
    characters for each byte of the hash. *)
Theorem hex_to_url_encoded_is_url_text (h enc : str) (raw : bytes) :
  bytes_fromhex h = Some raw ->
  ManualScrape.hex_to_url_encoded h = Some enc ->
  forallb url_char enc = true /\
  List.length raw <= List.length enc <= 3 * List.length raw.
Proof.
  intros Hraw. unfold ManualScrape.hex_to_url_encoded. rewrite Hraw.
  intros [= <-]. unfold Urllib.quote. clear Hraw.
  induction raw as [|c raw [IHc IHlen]]; [split; [reflexivity | cbn; lia]|].
  destruct (quoter_chars c) as [Hc Hlen].
  cbn [flat_map]. rewrite forallb_app, Hc, IHc, length_app.
  split; [reflexivity | cbn [List.length]; lia].
Qed.

Lemma hex_to_url_encoded_is_url_text_witness :
  forallb url_char (s "%BA%0E%26uy") = true /\
  List.length [Byte.xba; Byte.x0e; Byte.x26; Byte.x75; Byte.x79]
  <= List.length (s "%BA%0E%26uy")
  <= 3 * List.length [Byte.xba; Byte.x0e; Byte.x26; Byte.x75; Byte.x79].
Proof.
  apply (hex_to_url_encoded_is_url_text (s "ba0e267579") (s "%BA%0E%26uy")
           [Byte.xba; Byte.x0e; Byte.x26; Byte.x75; Byte.x79]);
    reflexivity.
Defined.

Lemma quoted_has_no_space (raw : bytes) :
  bytes_contains (b " ") (utf8_encode (Urllib.quote raw [])) = false.
Proof.
  change (b " ") with [" "%byte]. rewrite contains_byte.
  unfold Urllib.quote, utf8_encode. rewrite flat_map_flat_map.
  induction raw as [|c raw IH]; [reflexivity|].
  cbn [flat_map]. rewrite existsb_app, IH, orb_false_r.
  destruct c; reflexivity.
Qed.

Lemma quoted_byte_length (c : byte) :
  (Urllib.always_safe c = true -> utf8_encode (Urllib.quoter [] c) = [c]) /\
  1 <= List.length (utf8_encode (Urllib.quoter [] c)) /\
  (Urllib.always_safe c = false ->
   1 < List.length (utf8_encode (Urllib.quoter [] c))).
Proof.
  destruct c; vm_compute;
    (split; [intros H; (discriminate H || reflexivity)
            | split; [lia | intros H; (discriminate H || lia)]]).
Qed.

(** The quoted text is the hash itself only when no byte needed an escape. *)
Lemma quoted_is_raw_iff (raw : bytes) :
  utf8_encode (Urllib.quote raw []) = raw <-> forallb Urllib.always_safe raw = true.
Proof.
  unfold Urllib.quote, utf8_encode. rewrite flat_map_flat_map.
  fold utf8_encode. split.
  - intros H. apply (f_equal (@List.length byte)) in H.
    assert (Hlen : List.length raw
                   <= List.length (flat_map (fun c => utf8_encode (Urllib.quoter [] c)) raw)
                   /\ (forallb Urllib.always_safe raw = false ->
                       List.length raw
                       < List.length (flat_map (fun c => utf8_encode (Urllib.quoter [] c)) raw))).
    { clear H. induction raw as [|c raw [IHle IHlt]]; [split; [constructor | discriminate]|].
      cbn [flat_map forallb List.length]. rewrite length_app.
      destruct (quoted_byte_length c) as (_ & Hle & Hlt). split; [lia|].
      intros H. apply andb_false_iff in H as [H|H];
        [specialize (Hlt H) | specialize (IHlt H)]; lia. }
    destruct (forallb Urllib.always_safe raw); [reflexivity|].
    destruct Hlen as [_ Hlt]. specialize (Hlt eq_refl).
    unfold utf8_encode in Hlt. lia.
  - intros H. rewrite forallb_forall in H.
    induction raw as [|c raw IH]; [reflexivity|].
    cbn [flat_map]. destruct (quoted_byte_length c) as (Hc & _).
    unfold utf8_encode in Hc. rewrite Hc by (apply H; now left). cbn [app]. f_equal.
    apply IH. intros x Hx. apply H. now right.
Qed.

(** X7: what [manual-scrape.py] sends as [info_hash] is encoded twice: one
    round of percent-decoding gives the percent-encoded text of the hash, a
    second round gives its bytes; the first round alone gives the bytes
    exactly when no byte of the hash needed an escape. *)
Theorem manual_param_is_encoded_twice (h : str) (raw : bytes) :
  bytes_fromhex h = Some raw ->
  exists p,
    ManualScrape.info_hash_param h = Some p /\
    Urllib.unquote_to_bytes p = utf8_encode (Urllib.quote raw []) /\
    Urllib.unquote_bytes (Urllib.unquote_to_bytes p) = raw /\
    (Urllib.unquote_to_bytes p = raw <-> forallb Urllib.always_safe raw = true).
Proof.
  intros Hraw.
  unfold ManualScrape.info_hash_param, ManualScrape.hex_to_url_encoded,
    encode_param_value.
  rewrite Hraw. eexists. split; [reflexivity|].
  assert (H : Urllib.unquote_to_bytes
                (Urllib.quote_plus (utf8_encode (Urllib.quote raw [])))
              = utf8_encode (Urllib.quote raw [])).
  { unfold Urllib.quote_plus. rewrite quoted_has_no_space. cbn [negb].
    apply unquote_quote. }
  rewrite H. split; [reflexivity|]. split; [exact (unquote_quote raw)|].
  apply quoted_is_raw_iff.
Qed.

Lemma manual_param_is_encoded_twice_witness :
  exists p,
    ManualScrape.info_hash_param (s "ba0e267579fa62981795dcc059fb61e1af5ca429")
      = Some p /\
    Urllib.unquote_to_bytes p
      = b "%BA%0E%26uy%FAb%98%17%95%DC%C0Y%FBa%E1%AF%5C%A4%29" /\
    List.length (Urllib.unquote_bytes (Urllib.unquote_to_bytes p)) = 20 /\
    List.length (Urllib.unquote_to_bytes p) = 50.
Proof.
  destruct (manual_param_is_encoded_twice
              (s "ba0e267579fa62981795dcc059fb61e1af5ca429") _ eq_refl)
    as (p & Hp & H1 & H2 & _).
  exists p. split; [exact Hp|]. split; [exact H1|].
  split; [now rewrite H2 | now rewrite H1].
Defined.

(** A hash of unreserved bytes goes out as it is, and one round of decoding
    gives the hash. *)
Example unreserved_hash_is_sent_raw :
  ManualScrape.info_hash_param (s "4142") = Some (s "AB") /\
  Urllib.unquote_to_bytes (s "AB") = b "AB".
Proof. split; reflexivity. Qed.

Lemma form_decode_byte (c : byte) (r : bytes) :
  Urllib.unquote_bytes
    (utf8_encode (map (fun x => if ascii_eqb "+" x then " "%char else x)
                    (plus_quoter c)) ++ r)
  = c :: Urllib.unquote_bytes r.
Proof.
  destruct c;
    match goal with
    | |- Urllib.unquote_bytes (?q ++ _) = _ =>
        let v := eval vm_compute in q in change q with v
    end;
    cbn [app];
    first [ apply unquote_plain; reflexivity
          | erewrite unquote_escape by (vm_compute; reflexivity);
            f_equal ].
Qed.

(** X8: what [manual-scrape-better.py] sends as [info_hash] decodes to the
    bytes of the hash in one round of form decoding ([+] to space, then the
    percent escapes). *)
Theorem better_param_decodes_once (h : str) (raw : bytes) :
  bytes_fromhex h = Some raw ->
  exists p,
    ManualScrapeBetter.info_hash_param h = Some p /\ form_decode p = raw.
Proof.
  intros Hraw. unfold ManualScrapeBetter.info_hash_param, encode_param_value.
  rewrite Hraw. eexists. split; [reflexivity|].
  unfold form_decode, Urllib.unquote_to_bytes.
  change (s "+") with ["+"%char]. change (s " ") with [" "%char].
  rewrite replace_char, quote_plus_bytewise, map_flat_map.
  unfold utf8_encode. rewrite flat_map_flat_map. clear Hraw.
  induction raw as [|c raw IH]; [reflexivity|].
  cbn [flat_map]. fold (utf8_encode
    (map (fun x => if ascii_eqb "+" x then " "%char else x) (plus_quoter c))).
  now rewrite form_decode_byte, IH.
Qed.

Lemma better_param_decodes_once_witness :
  exists p,
    ManualScrapeBetter.info_hash_param (s "ba0e2675202b25") = Some p /\
    form_decode p = [Byte.xba; Byte.x0e; Byte.x26; Byte.x75; Byte.x20; Byte.x2b; Byte.x25].
Proof.
  apply (better_param_decodes_once (s "ba0e2675202b25")). reflexivity.
Defined.

Lemma fromhex_odd (n : nat) (h : str) :
  List.length h = S (2 * n) ->
  forallb is_hex_char h = true ->
  bytes_fromhex h = None.
Proof.
  revert h. induction n as [|n IH]; intros h Hlen Hhex.
  - destruct h as [|c [|d h]]; try discriminate Hlen.
    cbn [forallb] in Hhex. apply andb_true_iff in Hhex as [Hc _].
    cbn [bytes_fromhex]. now rewrite (hex_char_not_space _ Hc).
  - destruct h as [|c [|d h]]; try (simpl in Hlen; lia).
    cbn [forallb] in Hhex.
    apply andb_true_iff in Hhex as [Hc Hhex].
    apply andb_true_iff in Hhex as [Hd Hhex].
    cbn [bytes_fromhex]. rewrite (hex_char_not_space _ Hc).
    rewrite (IH h) by (simpl in Hlen; lia || exact Hhex).
    destruct (hexval (N_of_ascii c)); [|reflexivity].
    destruct (hexval (N_of_ascii d)); reflexivity.
Qed.

(** X9: for a hash written as an even number of hexadecimal digits both
    functions return, whatever the HTTP client and the decoder do, and the
    first line they print is the request line with the scrape URL. *)
Theorem even_hex_never_raises
    (get : str -> param_value -> outcome) (limit : nat)
    (decode : bytes -> option Bencode.value) (tracker_url h : str) (n : nat) :
  List.length h = 2 * n ->
  forallb is_hex_char h = true ->
  (exists out result,
     ManualScrape.scrape_http_tracker get limit tracker_url h
     = ManualScrape.Returns
         (ManualScrape.Scraping (ScrapeUrl.scrape_url tracker_url) :: out) result)
  /\
  (exists out result,
     ManualScrapeBetter.scrape_http_tracker get decode tracker_url h
     = ManualScrapeBetter.Returns
         (ManualScrapeBetter.Scraping (ScrapeUrl.scrape_url tracker_url) :: out)
         result).
Proof.
  intros Hlen Hhex. destruct (fromhex_digits n h Hlen Hhex) as (raw & Hraw & _).
  split.
  - unfold ManualScrape.scrape_http_tracker, ManualScrape.hex_to_url_encoded.
    rewrite Hraw.
    destruct (get _ _) as [code content| | |]; try (eexists _, _; reflexivity).
    destruct (code =? 200)%Z; [|eexists _, _; reflexivity].
    destruct (ManualScrape.parse_content limit content) as [out' [r|]];
      eexists _, _; reflexivity.
  - unfold ManualScrapeBetter.scrape_http_tracker. rewrite Hraw.
    destruct (get _ _) as [code content| | |]; try (eexists _, _; reflexivity).
    destruct (code =? 200)%Z; [|eexists _, _; reflexivity].
    destruct (ManualScrapeBetter.decode_content decode raw content) as [out' r].
    eexists _, _; reflexivity.
Qed.

Lemma even_hex_never_raises_witness :
  (exists out result,
     ManualScrape.scrape_http_tracker (fun _ _ => Timeout) 4300
       (s "http://tracker.example/announce") (s "BA0e")
     = ManualScrape.Returns
         (ManualScrape.Scraping
            (ScrapeUrl.scrape_url (s "http://tracker.example/announce")) :: out)
         result)
  /\
  (exists out result,
     ManualScrapeBetter.scrape_http_tracker (fun _ _ => Timeout) (fun _ => None)
       (s "http://tracker.example/announce") (s "BA0e")
     = ManualScrapeBetter.Returns
         (ManualScrapeBetter.Scraping
            (ScrapeUrl.scrape_url (s "http://tracker.example/announce")) :: out)
         result).
Proof.
  apply (even_hex_never_raises (fun _ _ => Timeout) 4300 (fun _ => None)
           (s "http://tracker.example/announce") (s "BA0e") 2); reflexivity.
Defined.

(** X10: for a hash written as an odd number of hexadecimal digits both
    functions let the [ValueError] of [bytes.fromhex] escape: the conversion
    stands before the [try], so no [None] is returned and nothing printed. *)
Theorem odd_hex_raises
    (get : str -> param_value -> outcome) (limit : nat)
    (decode : bytes -> option Bencode.value) (tracker_url h : str) (n : nat) :
  List.length h = S (2 * n) ->
  forallb is_hex_char h = true ->
  ManualScrape.scrape_http_tracker get limit tracker_url h
    = ManualScrape.RaisesValueError /\
  ManualScrapeBetter.scrape_http_tracker get decode tracker_url h
    = ManualScrapeBetter.RaisesValueError.
Proof.
  intros Hlen Hhex. pose proof (fromhex_odd n h Hlen Hhex) as Hraw.
  unfold ManualScrape.scrape_http_tracker, ManualScrape.hex_to_url_encoded,
    ManualScrapeBetter.scrape_http_tracker.
  now rewrite Hraw.
Qed.

Lemma odd_hex_raises_witness :
  ManualScrape.scrape_http_tracker (fun _ _ => Response 200 []) 4300
    (s "http://tracker.example/announce") (s "ba0e2")
    = ManualScrape.RaisesValueError /\
  ManualScrapeBetter.scrape_http_tracker (fun _ _ => Response 200 []) (fun _ => None)
    (s "http://tracker.example/announce") (s "ba0e2")
    = ManualScrapeBetter.RaisesValueError.
Proof.
  apply (odd_hex_raises (fun _ _ => Response 200 []) 4300 (fun _ => None)
           (s "http://tracker.example/announce") (s "ba0e2") 2); reflexivity.
Defined.

End InfoHashMore.

(* ================================================================= *)
(** * More about the pattern search of [manual-scrape.py] *)

Module ManualScrapeMore.
Import Py Requests ManualScrape.

Lemma byte_eqb_refl (x : byte) : byte_eqb x x = true.
Proof. unfold byte_eqb. now rewrite Byte.byte_dec_lb. Qed.

Lemma bytes_startswith_app (p t : bytes) : startswith byte_eqb p (p ++ t) = true.
Proof.
  induction p as [|x p IH]; simpl; [reflexivity|].
  now rewrite byte_eqb_refl, IH.
Qed.

Lemma bytes_startswith_inv (p l : bytes) :
  startswith byte_eqb p l = true -> l = p ++ skipn (List.length p) l.
Proof.
  revert l; induction p as [|x p IH]; intros [|y l]; simpl; try easy.
  intros H. apply andb_true_iff in H as [Hxy Hp].
  apply Byte.byte_dec_bl in Hxy. subst y. f_equal. now apply IH.
Qed.

(** The digits captured are followed by an [e]. *)
Lemma digits_then_e_sound (l g : bytes) :
  digits_then_e l = Some g ->
  exists post, l = g ++ b "e" ++ post /\ g <> [] /\ forallb is_digit g = true.
Proof.
  revert g. induction l as [|d r IH]; intros g; [discriminate|].
  cbn [digits_then_e]. destruct (is_digit d) eqn:Hd; [|discriminate].
  destruct (digits_then_e r) as [ds|] eqn:E.
  - intros [= <-]. destruct (IH ds eq_refl) as (post & -> & _ & Hds).
    exists post. repeat split; [discriminate|]. cbn [forallb]. now rewrite Hd, Hds.
  - destruct (startswith byte_eqb (b "e") r) eqn:He; [|discriminate].
    intros [= <-]. apply bytes_startswith_inv in He.
    exists (skipn (List.length (b "e")) r). rewrite He at 1.
    repeat split; [discriminate|]. cbn [forallb]. now rewrite Hd.
Qed.

(** A run of digits before an [e] is captured whole. *)
Lemma digits_then_e_complete (g post : bytes) :
  g <> [] -> forallb is_digit g = true ->
  digits_then_e (g ++ b "e" ++ post) = Some g.
Proof.
  induction g as [|d g IH]; [congruence|]. intros _ Hg.
  cbn [forallb] in Hg. apply andb_true_iff in Hg as [Hd Hg].
  cbn [app digits_then_e]. rewrite Hd.
  destruct g as [|d' g]; [reflexivity|].
  now rewrite IH by (discriminate || exact Hg).
Qed.

Lemma match_here_sound (key l g : bytes) :
  match_here key l = Some g ->
  exists post, l = key ++ b "i" ++ g ++ b "e" ++ post /\
               g <> [] /\ forallb is_digit g = true.
Proof.
  unfold match_here.
  destruct (startswith byte_eqb (key ++ b "i") l) eqn:E; [|discriminate].
  intros H. apply digits_then_e_sound in H as (post & Hpost & Hg).
  apply bytes_startswith_inv in E. exists post. split; [|exact Hg].
  rewrite E, Hpost. now rewrite <- app_assoc.
Qed.

Lemma match_here_complete (key g post : bytes) :
  g <> [] -> forallb is_digit g = true ->
  match_here key (key ++ b "i" ++ g ++ b "e" ++ post) = Some g.
Proof.
  intros Hne Hg. unfold match_here.
  rewrite (app_assoc key), bytes_startswith_app.
  rewrite skipn_app, Nat.sub_diag, skipn_all. cbn [skipn app].
  now apply digits_then_e_complete.
Qed.

(** X11: the search for a counter finds something exactly when the body
    holds the key, an [i], one or more digits and an [e] one after the
    other; what it returns is such a run of digits. *)
Theorem re_search_finds_counter (key content : bytes) :
  (forall g, re_search key content = Some g ->
     exists pre post,
       content = pre ++ key ++ b "i" ++ g ++ b "e" ++ post /\
       g <> [] /\ forallb is_digit g = true)
  /\
  (forall pre g post,
     content = pre ++ key ++ b "i" ++ g ++ b "e" ++ post ->
     g <> [] -> forallb is_digit g = true ->
     re_search key content <> None).
Proof.
  split.
  - induction content as [|c content IH]; intros g.
    + cbn [re_search]. destruct (match_here key []) eqn:E; [|discriminate].
      intros [= ->]. apply match_here_sound in E as (post & -> & Hg).
      now exists [], post.
    + cbn [re_search]. destruct (match_here key (c :: content)) eqn:E.
      * intros [= ->]. apply match_here_sound in E as (post & -> & Hg).
        now exists [], post.
      * intros H. destruct (IH g H) as (pre & post & -> & Hg).
        now exists (c :: pre), post.
  - intros pre g post -> Hne Hg. induction pre as [|c pre IH].
    + cbn [app]. pose proof (match_here_complete key g post Hne Hg) as E.
      destruct (key ++ b "i" ++ g ++ b "e" ++ post); cbn [re_search];
        rewrite E; discriminate.
    + cbn [app re_search]. destruct (match_here key _); [discriminate | exact IH].
Qed.

(** X12: when [scrape_http_tracker] of [manual-scrape.py] returns
    statistics, the hash converted, the tracker answered with status 200,
    and none of the three counts is negative. *)
Theorem manual_statistics_are_counts
    (get : str -> param_value -> outcome) (limit : nat)
    (tracker_url h : str) (out : list message) (st : stats) :
  scrape_http_tracker get limit tracker_url h = Returns out (Some st) ->
  exists encoded content,
    hex_to_url_encoded h = Some encoded /\
    get (ScrapeUrl.scrape_url tracker_url) (PStr encoded) = Response 200 content /\
    (0 <= seeders st)%Z /\ (0 <= leechers st)%Z /\ (0 <= downloads st)%Z.
Proof.
  unfold scrape_http_tracker.
  destruct (hex_to_url_encoded h) as [encoded|]; [|discriminate].
  destruct (get _ _) as [code content| | |] eqn:Hget; try discriminate.
  destruct (code =? 200)%Z eqn:Hcode; [|discriminate].
  apply Z.eqb_eq in Hcode. subst code.
  destruct (parse_content limit content) as [out' [result|]] eqn:E; [|discriminate].
  intros [= _ ->]. exists encoded, content.
  split; [reflexivity|]. split; [exact Hget|].
  revert E. unfold parse_content, int_or_zero, py_int.
  destruct (re_search (b "8:complete") content) as [g1|];
    destruct (re_search (b "10:incomplete") content) as [g2|];
    destruct (re_search (b "10:downloaded") content) as [g3|];
    repeat match goal with
           | |- context [if ?c then _ else _] => destruct c
           end;
    intros [= _ <-]; cbn [seeders leechers downloads]; lia.
Qed.

Lemma manual_statistics_are_counts_witness :
  exists encoded content,
    hex_to_url_encoded (s "4141") = Some encoded /\
    (fun (_ : str) (_ : param_value) => Response 200 (b "8:completei5e"))
      (ScrapeUrl.scrape_url (s "http://tracker.example/announce")) (PStr encoded)
    = Response 200 content /\
    (0 <= 5)%Z /\ (0 <= 0)%Z /\ (0 <= 0)%Z.
Proof.
  exact (manual_statistics_are_counts
           (fun _ _ => Response 200 (b "8:completei5e")) 4300
           (s "http://tracker.example/announce") (s "4141") _
           {| seeders := 5; leechers := 0; downloads := 0 |} eq_refl).
Defined.

End ManualScrapeMore.

(* ================================================================= *)
(** * More about the lookups of [manual-scrape-better.py] *)

Module ManualScrapeBetterMore.
Import Py Requests Bencode ManualScrapeBetter ManualScrapeBetterFacts.

(** Statistics come out of the lookups only along the chain of three
    dictionaries. *)
Lemma read_stats_some (id : bytes) (data : value) out st :
  read_stats id data = (out, Some (Some st)) ->
  exists d f e,
    data = Dictionary d /\
    lookup (b "files") d = Some (Dictionary f) /\
    lookup id f = Some (Dictionary e) /\
    py_get (Dictionary e) (b "complete") = Some (seeders st) /\
    py_get (Dictionary e) (b "incomplete") = Some (leechers st) /\
    py_get (Dictionary e) (b "downloaded") = Some (downloads st).
Proof.
  unfold read_stats.
  destruct data as [z|x|l|d]; cbn [py_in py_getitem py_keys]; try discriminate.
  - destruct (bytes_contains (b "files") x); discriminate.
  - destruct (existsb _ l); discriminate.
  - rewrite has_key_lookup.
    destruct (lookup (b "files") d) as [files|] eqn:Hfiles; [|discriminate].
    destruct files as [z|x|l|f]; cbn [py_in py_getitem]; try discriminate.
    + destruct (bytes_contains id x); discriminate.
    + destruct (existsb _ l); discriminate.
    + rewrite has_key_lookup.
      destruct (lookup id f) as [entry|] eqn:Hid; [|discriminate].
      destruct entry as [z|x|l|e]; try discriminate.
      destruct (py_get (Dictionary e) (b "complete")) as [v1|] eqn:E1; [|discriminate].
      destruct (py_get (Dictionary e) (b "incomplete")) as [v2|] eqn:E2; [|discriminate].
      destruct (py_get (Dictionary e) (b "downloaded")) as [v3|] eqn:E3; [|discriminate].
      intros [= _ <-]. now exists d, f, e.
Qed.

(** X13: [scrape_http_tracker] of [manual-scrape-better.py] returns
    statistics only if the tracker answered with status 200, the body
    decoded to a dictionary, its [files] entry is a dictionary and that one
    holds a dictionary under the bytes of the hash; the statistics are what
    this last dictionary gives for the three keys, zero for an absent one. *)
Theorem statistics_come_from_the_entry
    (get : str -> param_value -> outcome) (decode : bytes -> option value)
    (tracker_url h : str) (out : list message) (st : stats) :
  scrape_http_tracker get decode tracker_url h = Returns out (Some st) ->
  exists id content d f e,
    bytes_fromhex h = Some id /\
    get (ScrapeUrl.scrape_url tracker_url) (PBytes id) = Response 200 content /\
    decode content = Some (Dictionary d) /\
    lookup (b "files") d = Some (Dictionary f) /\
    lookup id f = Some (Dictionary e) /\
    py_get (Dictionary e) (b "complete") = Some (seeders st) /\
    py_get (Dictionary e) (b "incomplete") = Some (leechers st) /\
    py_get (Dictionary e) (b "downloaded") = Some (downloads st).
Proof.
  unfold scrape_http_tracker.
  destruct (bytes_fromhex h) as [id|]; [|discriminate].
  destruct (get _ _) as [code content| | |] eqn:Hget; try discriminate.
  destruct (code =? 200)%Z eqn:Hcode; [|discriminate].
  apply Z.eqb_eq in Hcode. subst code.
  unfold decode_content.
  destruct (decode content) as [data|] eqn:Hdec; [|discriminate].
  destruct (read_stats id data) as [out' [result|]] eqn:E; [|discriminate].
  intros [= _ ->].
  destruct (read_stats_some _ _ _ _ E) as (d & f & e & -> & H).
  exists id, content, d, f, e. now repeat split.
Qed.

Lemma statistics_come_from_the_entry_witness :
  exists id content d f e,
    bytes_fromhex (s "41") = Some id /\
    (fun (_ : str) (_ : param_value) => Response 200 (b "d5:filesd1:Ad8:completei5eeee"))
      (ScrapeUrl.scrape_url (s "http://tracker.example/announce")) (PBytes id)
    = Response 200 content /\
    (fun _ : bytes =>
       Some (Dictionary
               [(b "files", Dictionary [(b "A", Dictionary [(b "complete", Integer 5)])])]))
      content = Some (Dictionary d) /\
    lookup (b "files") d = Some (Dictionary f) /\
    lookup id f = Some (Dictionary e) /\
    py_get (Dictionary e) (b "complete") = Some (Integer 5) /\
    py_get (Dictionary e) (b "incomplete") = Some (Integer 0) /\
    py_get (Dictionary e) (b "downloaded") = Some (Integer 0).
Proof.
  exact (statistics_come_from_the_entry
           (fun _ _ => Response 200 (b "d5:filesd1:Ad8:completei5eeee"))
           (fun _ =>
              Some (Dictionary
                      [(b "files",
                        Dictionary [(b "A", Dictionary [(b "complete", Integer 5)])])]))
           (s "http://tracker.example/announce") (s "41") _
           {| seeders := Integer 5; leechers := Integer 0; downloads := Integer 0 |}
           eq_refl).
Defined.

End ManualScrapeBetterMore.

(* ================================================================= *)
(** * The top level of the two scripts *)

Module MainFacts.
Import Py Requests Bencode PyText InfoHashFacts InfoHashMore.

Lemma hex_digit_lower (c : ascii) (hi : N) :
  hexval (N_of_ascii c) = Some hi ->
  (hi < 16)%N /\ chr (hex_lower hi) = ascii_lower c.
Proof.
  destruct c as [[] [] [] [] [] [] [] []]; vm_compute;
    intros H; (discriminate H || (injection H as <-; split; reflexivity)).
Qed.

Lemma hexlify_byte (hi lo : N) :
  (hi < 16)%N -> (lo < 16)%N ->
  hexlify [byte_of_N (16 * hi + lo)] = [hex_lower hi; hex_lower lo].
Proof.
  intros Hhi Hlo. unfold hexlify. cbn [flat_map app].
  rewrite to_N_byte_of_N by lia.
  replace ((16 * hi + lo) / 16)%N with hi
    by (apply N.div_unique with lo; lia).
  replace ((16 * hi + lo) mod 16)%N with lo
    by (apply N.mod_unique with hi; lia).
  reflexivity.
Qed.

(** [hexlify] undoes [bytes.fromhex], up to the case of the letters. *)
Lemma hexlify_fromhex (n : nat) (h : str) :
  List.length h = 2 * n ->
  forallb is_hex_char h = true ->
  exists raw, bytes_fromhex h = Some raw /\ decode_ascii (hexlify raw) = lower h.
Proof.
  revert h. induction n as [|n IH]; intros h Hlen Hhex.
  - destruct h; [|discriminate]. now exists [].
  - destruct h as [|c [|d h]]; try (simpl in Hlen; lia).
    cbn [forallb] in Hhex.
    apply andb_true_iff in Hhex as [Hc Hhex].
    apply andb_true_iff in Hhex as [Hd Hhex].
    destruct (IH h) as (raw & Hraw & Hlow); [simpl in Hlen; lia | exact Hhex |].
    cbn [bytes_fromhex]. rewrite (hex_char_not_space _ Hc).
    unfold is_hex_char in Hc, Hd.
    destruct (hexval (N_of_ascii c)) as [hi|] eqn:Ehi; [|discriminate].
    destruct (hexval (N_of_ascii d)) as [lo|] eqn:Elo; [|discriminate].
    rewrite Hraw. eexists. split; [reflexivity|].
    destruct (hex_digit_lower c hi Ehi) as [Hhi Hlc].
    destruct (hex_digit_lower d lo Elo) as [Hlo Hld].
    change (hexlify (byte_of_N (16 * hi + lo) :: raw))
      with (hexlify [byte_of_N (16 * hi + lo)] ++ hexlify raw).
    rewrite hexlify_byte by assumption.
    unfold decode_ascii, lower in *. cbn [app map]. now rewrite Hlc, Hld, Hlow.
Qed.

Section Better.
Import ManualScrapeBetter ManualScrapeBetterMain.
Variable requests_get : str -> param_value -> outcome.
Variable bencodepy_decode : bytes -> option value.
Variable urlparse_scheme : str -> option str.

Lemma scrape_each_completed (hash : str) (rest : list str) :
  forall st out st' out',
    scrape_each requests_get bencodepy_decode urlparse_scheme hash rest st out = Completed st' out' ->
    http_count st' + udp_count st' = http_count st + udp_count st + List.length rest /\
    http_count st' + List.length (successful st)
      >= http_count st + List.length (successful st') /\
    http_count st'
      = http_count st + List.length (filter (is_http_tracker urlparse_scheme) rest) /\
    successful st' = successful st ++ flat_map (success_of requests_get bencodepy_decode urlparse_scheme hash) rest.
Proof.
  induction rest as [|tracker rest IH]; intros st out st' out'.
  - cbn [scrape_each]. intros [= <- _]. cbn [flat_map filter List.length].
    rewrite app_nil_r. repeat split; lia.
  - cbn [scrape_each flat_map filter List.length].
    unfold success_of at 1. unfold is_http_tracker at 1.
    destruct (urlparse_scheme tracker) as [scheme|]; [|discriminate].
    destruct (is_http scheme).
    + destruct (scrape_http_tracker _ _ tracker hash) as [printed result|];
        [|discriminate].
      intros H. apply IH in H. cbn [http_count udp_count successful] in H.
      destruct H as (H1 & H2 & H3 & H4).
      split; [lia|]. split; [|split; [cbn [List.length]; lia|]].
      * destruct result as [r|]; rewrite ?length_app in H2;
          cbn [List.length] in H2; lia.
      * rewrite H4. destruct result as [r|]; [|reflexivity].
        now rewrite <- app_assoc.
    + intros H. apply IH in H. cbn [http_count udp_count successful] in H.
      destruct H as (H1 & H2 & H3 & H4).
      split; [lia|]. split; [lia|]. split; [lia | exact H4].
Qed.

Lemma scrape_each_extends (hash : str) (rest : list str) :
  forall st out, exists more, output (scrape_each requests_get bencodepy_decode urlparse_scheme hash rest st out) = out ++ more.
Proof.
  induction rest as [|tracker rest IH]; intros st out.
  - exists []. cbn. now rewrite app_nil_r.
  - cbn [scrape_each].
    destruct (urlparse_scheme tracker) as [scheme|];
      [|exists []; cbn; now rewrite app_nil_r].
    destruct (is_http scheme).
    + destruct (scrape_http_tracker _ _ tracker hash) as [printed result|];
        [|exists []; cbn; now rewrite app_nil_r].
      match goal with
      | |- context [scrape_each _ _ _ _ _ ?st' ?out'] =>
          destruct (IH st' out') as (more & ->)
      end.
      rewrite <- app_assoc. eauto.
    + match goal with
      | |- context [scrape_each _ _ _ _ _ ?st' ?out'] =>
          destruct (IH st' out') as (more & ->)
      end.
      rewrite <- app_assoc. eauto.
Qed.

(** X14: when the script runs to its end, every tracker was counted once,
    as attempted or as skipped; the attempted ones are those whose scheme is
    [http] or [https]; there are no more successes than attempts; and the
    summary prints these very numbers. *)
Theorem main_counts_add_up (all : list str) (hash : str) st out :
  run_with requests_get bencodepy_decode urlparse_scheme all hash
    = Completed st out ->
  http_count st + udp_count st = List.length all /\
  http_count st = List.length (filter (is_http_tracker urlparse_scheme) all) /\
  List.length (successful st) <= http_count st /\
  exists before after,
    out = before ++
          [SummaryHeader; Attempted (http_count st); Skipped (udp_count st);
           Successes (List.length (successful st))] ++ after.
Proof.
  unfold run_with. destruct (bytes_fromhex hash) as [raw|]; [|discriminate].
  destruct (scrape_each _ _ _ hash all _ _) as [st' out'|] eqn:E; [|discriminate].
  intros [= <- <-].
  apply scrape_each_completed in E. cbn [http_count udp_count successful] in E.
  destruct E as (H1 & H2 & H3 & H4). cbn [List.length] in H2.
  repeat split; try lia.
  unfold summary. eexists _, _. reflexivity.
Qed.

(** X15: when the script runs to its end, [successful] holds, in the order
    of the tracker list, exactly the trackers with scheme [http] or [https]
    whose scrape returned statistics, each with those statistics. *)
Theorem main_successful_list (all : list str) (hash : str) st out :
  run_with requests_get bencodepy_decode urlparse_scheme all hash
    = Completed st out ->
  successful st = flat_map (success_of requests_get bencodepy_decode urlparse_scheme hash) all.
Proof.
  unfold run_with. destruct (bytes_fromhex hash) as [raw|]; [|discriminate].
  destruct (scrape_each _ _ _ hash all _ _) as [st' out'|] eqn:E; [|discriminate].
  intros [= <- _].
  apply scrape_each_completed in E. now destruct E as (_ & _ & _ & ->).
Qed.

(** X16: for a hash written as an even number of hexadecimal digits, the
    line headed "Binary hash" shows the hash itself, in lower case: the
    script converts the text to bytes and back to hexadecimal text. *)
Theorem binary_hash_line_is_the_hash (all : list str) (hash : str) (n : nat) :
  List.length hash = 2 * n ->
  forallb is_hex_char hash = true ->
  exists more,
    output (run_with requests_get bencodepy_decode urlparse_scheme all hash)
    = Testing hash :: BinaryHash (lower hash) :: more.
Proof.
  intros Hlen Hhex.
  destruct (hexlify_fromhex n hash Hlen Hhex) as (raw & Hraw & Hlow).
  unfold run_with. rewrite Hraw, Hlow.
  match goal with
  | |- context [scrape_each _ _ _ _ _ ?st0 ?out0] =>
      destruct (scrape_each_extends hash all st0 out0) as (more & Hmore)
  end.
  destruct (scrape_each _ _ _ hash all _ _) as [st out|]; cbn [output] in *;
    rewrite Hmore; cbn [app]; eauto.
Qed.

End Better.

Section Manual.
Import ManualScrape ManualScrapeMain.
Variable requests_get : str -> param_value -> outcome.
Variable int_max_str_digits : nat.

Lemma one_request_line (tracker hash : str) printed result :
  scrape_http_tracker requests_get int_max_str_digits tracker hash
    = Returns printed result ->
  requested (map Printed printed) = [ScrapeUrl.scrape_url tracker].
Proof.
  unfold scrape_http_tracker.
  destruct (hex_to_url_encoded hash) as [encoded|]; [|discriminate].
  destruct (requests_get _ _) as [code content| | |];
    try (intros [= <- _]; reflexivity).
  destruct (code =? 200)%Z; [|intros [= <- _]; reflexivity].
  unfold parse_content.
  destruct (re_search (b "8:complete") content);
    destruct (re_search (b "10:incomplete") content);
    repeat match goal with
           | |- context [match int_or_zero ?l ?m with _ => _ end] =>
               destruct (int_or_zero l m)
           end;
    intros [= <- _]; reflexivity.
Qed.

Lemma requested_app (x y : list line) : requested (x ++ y) = requested x ++ requested y.
Proof. apply flat_map_app. Qed.

Lemma scrape_each_requests (hash encoded : str) (rest : list str) :
  hex_to_url_encoded hash = Some encoded ->
  forall out, exists out',
    scrape_each requests_get int_max_str_digits hash rest out = Completed out' /\
    requested out' = requested out ++ map ScrapeUrl.scrape_url rest.
Proof.
  intros Henc. induction rest as [|tracker rest IH]; intros out.
  - exists out. cbn. now rewrite app_nil_r.
  - cbn [scrape_each map].
    destruct (scrape_http_tracker requests_get int_max_str_digits tracker hash)
      as [printed result|] eqn:E.
    + destruct (IH (out ++ map Printed printed ++ [Blank])) as (out' & -> & Hreq).
      exists out'. split; [reflexivity|].
      rewrite Hreq, !requested_app, (one_request_line _ _ _ _ E).
      cbn. now rewrite <- app_assoc.
    + unfold scrape_http_tracker in E. rewrite Henc in E.
      destruct (requests_get _ _) as [code content| | |]; try discriminate E.
      destruct (code =? 200)%Z; [|discriminate E].
      destruct (parse_content _ content) as [o [r|]]; discriminate E.
Qed.

(** X17: for a hash written as an even number of hexadecimal digits the
    script of [manual-scrape.py] runs to its end and prints one request line
    per tracker, in the order of the list, each with the scrape URL of its
    tracker. *)
Theorem manual_main_requests (all : list str) (hash : str) (n : nat) :
  List.length hash = 2 * n ->
  forallb is_hex_char hash = true ->
  exists out,
    run_with requests_get int_max_str_digits all hash = Completed out /\
    requested out = map ScrapeUrl.scrape_url all.
Proof.
  intros Hlen Hhex. destruct (fromhex_digits n hash Hlen Hhex) as (raw & Hraw & _).
  assert (Henc : hex_to_url_encoded hash = Some (Urllib.quote raw []))
    by (unfold hex_to_url_encoded; now rewrite Hraw).
  unfold run_with.
  destruct (scrape_each_requests hash _ all Henc [Testing hash]) as (out & -> & Hreq).
  eexists. split; [reflexivity|].
  rewrite requested_app, Hreq. cbn. now rewrite app_nil_r.
Qed.

End Manual.

Lemma main_counts_add_up_witness :
  exists st out,
    ManualScrapeBetterMain.run_with (fun _ _ => Timeout) (fun _ => None)
      (fun url => Some (firstn 4 url))
      ManualScrapeBetterMain.trackers ManualScrapeBetterMain.info_hash
    = ManualScrapeBetterMain.Completed st out /\
    ManualScrapeBetterMain.http_count st = 8 /\
    ManualScrapeBetterMain.udp_count st = 1 /\
    ManualScrapeBetterMain.http_count st + ManualScrapeBetterMain.udp_count st
    = List.length ManualScrapeBetterMain.trackers.
Proof.
  eexists _, _. split; [reflexivity|]. split; [reflexivity|]. split; [reflexivity|].
  eapply (main_counts_add_up (fun _ _ => Timeout) (fun _ => None)
            (fun url => Some (firstn 4 url))
            ManualScrapeBetterMain.trackers ManualScrapeBetterMain.info_hash).
  reflexivity.
Defined.

Lemma main_successful_list_witness :
  exists st out,
    ManualScrapeBetterMain.run_with
      (fun url _ =>
         if PyText.str_eqb url (s "http://b.example/scrape")
         then Response 200 (b "ok") else Response 404 [])
      (fun _ =>
         Some (Dictionary
                 [(b "files", Dictionary [(b "A", Dictionary [(b "complete", Integer 5)])])]))
      (fun url => Some (firstn 4 url))
      [s "http://a.example/announce"; s "udp://u.example/announce";
       s "http://b.example/announce"] (s "41")
    = ManualScrapeBetterMain.Completed st out /\
    ManualScrapeBetterMain.successful st
    = [(s "http://b.example/announce",
        {| ManualScrapeBetter.seeders := Integer 5;
           ManualScrapeBetter.leechers := Integer 0;
           ManualScrapeBetter.downloads := Integer 0 |})].
Proof.
  eexists _, _. split; [reflexivity|].
  refine (eq_trans
            (main_successful_list
               (fun url _ =>
                  if PyText.str_eqb url (s "http://b.example/scrape")
                  then Response 200 (b "ok") else Response 404 [])
               (fun _ =>
                  Some (Dictionary
                          [(b "files",
                            Dictionary [(b "A", Dictionary [(b "complete", Integer 5)])])]))
               (fun url => Some (firstn 4 url))
               [s "http://a.example/announce"; s "udp://u.example/announce";
                s "http://b.example/announce"] (s "41") _ _ eq_refl) _).
  reflexivity.
Defined.

Lemma binary_hash_line_is_the_hash_witness :
  exists more,
    ManualScrapeBetterMain.output
      (ManualScrapeBetterMain.run_with (fun _ _ => Timeout) (fun _ => None)
         (fun url => Some (firstn 4 url))
         ManualScrapeBetterMain.trackers (s "BA0E267579FA62981795DCC059FB61E1AF5CA429"))
    = ManualScrapeBetterMain.Testing (s "BA0E267579FA62981795DCC059FB61E1AF5CA429")
      :: ManualScrapeBetterMain.BinaryHash (s "ba0e267579fa62981795dcc059fb61e1af5ca429")
      :: more.
Proof.
  apply (binary_hash_line_is_the_hash (fun _ _ => Timeout) (fun _ => None)
           (fun url => Some (firstn 4 url))
           ManualScrapeBetterMain.trackers
           (s "BA0E267579FA62981795DCC059FB61E1AF5CA429") 20); reflexivity.
Defined.

Lemma manual_main_requests_witness :
  exists out,
    ManualScrapeMain.run_with (fun _ _ => Timeout) 4300
      ManualScrapeMain.http_trackers ManualScrapeMain.info_hash
    = ManualScrapeMain.Completed out /\
    ManualScrapeMain.requested out
    = map ScrapeUrl.scrape_url ManualScrapeMain.http_trackers.
Proof.
  apply (manual_main_requests (fun _ _ => Timeout) 4300
           ManualScrapeMain.http_trackers ManualScrapeMain.info_hash 20);
    reflexivity.
Defined.

End MainFacts.
